(** * markdown.gg: server routes, rate limiter, capability fragments and
    client-side encryption, embedded in Rocq.

    JavaScript strings are sequences of UTF-16 code units ([jsstr]);
    byte arrays ([Uint8Array]) are lists of integers in [0, 255];
    JavaScript numbers used as counters, timestamps and lengths are [Z].
    The document table and the in-memory rate-limit log are stdpp [gmap]s
    keyed by their string keys. *)

From Stdlib Require Import ZArith Lia ZifyNat.
From Stdlib Require Import Strings.String Strings.Ascii.
From stdpp Require Import base list gmap.

Local Open Scope Z_scope.
Local Set Warnings "-register-all".

(** Division and modulus by constants, then linear arithmetic. *)
Ltac zlia := Z.to_euclidean_division_equations; lia.
Ltac nlia := zify; Z.to_euclidean_division_equations; lia.
(** Case analysis on the integer comparisons of the goal. *)
Ltac zcase :=
  repeat match goal with
  | |- context [Z.ltb ?a ?b] => destruct (Z.ltb_spec a b)
  | |- context [Z.leb ?a ?b] => destruct (Z.leb_spec a b)
  | |- context [Z.eqb ?a ?b] => destruct (Z.eqb_spec a b)
  end; cbn [andb orb negb] in *.
Ltac forall_inv :=
  repeat match goal with
  | H : Forall _ (_ :: _) |- _ => inversion H; subst; clear H
  end.

(* ------------------------------------------------------------------ *)
(** ** JavaScript strings *)

Definition jsstr := list Z.

(** A string literal of the source, as code units. *)
Fixpoint js (s : string) : jsstr :=
  match s with
  | EmptyString => []
  | String a r => Z.of_nat (nat_of_ascii a) :: js r
  end.

(** [s.split(c)] for a one-unit separator: always at least one piece. *)
Fixpoint split_on (c : Z) (s : jsstr) : list jsstr :=
  match s with
  | [] => [[]]
  | x :: r =>
      let ps := split_on c r in
      if Z.eqb x c then [] :: ps
      else match ps with
           | p :: ps' => (x :: p) :: ps'
           | [] => [[x]]
           end
  end.

(** [parts[i]] of a split (an index past the end is [undefined]; the code
    only reads indices it has checked or index 0). *)
Definition nth_piece (ps : list jsstr) (i : nat) : jsstr := nth i ps [].

(** WhiteSpace and LineTerminator code units, as removed by
    [String.prototype.trim]. *)
Definition is_js_ws (u : Z) : bool :=
  (u =? 9) || (u =? 10) || (u =? 11) || (u =? 12) || (u =? 13) ||
  (u =? 32) || (u =? 160) || (u =? 5760) || ((8192 <=? u) && (u <=? 8202)) ||
  (u =? 8232) || (u =? 8233) || (u =? 8239) || (u =? 8287) ||
  (u =? 12288) || (u =? 65279).

Fixpoint drop_ws (s : jsstr) : jsstr :=
  match s with
  | x :: r => if is_js_ws x then drop_ws r else s
  | [] => []
  end.

Definition trim (s : jsstr) : jsstr := rev (drop_ws (rev (drop_ws s))).

(** JavaScript truthiness of a string: only [""] is falsy. *)
Definition str_truthy (s : jsstr) : bool :=
  match s with [] => false | _ => true end.

(* ------------------------------------------------------------------ *)
(** ** Request headers and [getClientIp] (src/lib/rate-limit.ts) *)

(** A [Headers] object as the route handler sees it: (lower-cased name,
    value) entries in order; [get] joins the values of one name with
    [", "] and returns [null] when the name is absent. *)
Definition Headers := list (jsstr * jsstr).

Fixpoint join_values (vs : list jsstr) : jsstr :=
  match vs with
  | [] => []
  | [v] => v
  | v :: r => v ++ js ", " ++ join_values r
  end.

Definition headers_get (h : Headers) (name : jsstr) : option jsstr :=
  match map snd (filter (fun e => fst e = name) h) with
  | [] => None
  | vs => Some (join_values vs)
  end.

(** JavaScript truthiness of [headers.get(..)]: [null] and [""] are falsy. *)
Definition opt_truthy (v : option jsstr) : bool :=
  match v with Some s => str_truthy s | None => false end.

Definition getClientIp (h : Headers) : jsstr :=
  let forwardedFor := headers_get h (js "x-forwarded-for") in
  if opt_truthy forwardedFor
  then trim (nth_piece (split_on 44 (default [] forwardedFor)) 0)
  else
    let realIp := headers_get h (js "x-real-ip") in
    if opt_truthy realIp then trim (default [] realIp)
    else js "unknown".

(* ------------------------------------------------------------------ *)
(** ** The in-memory rate limiter (src/lib/rate-limit.ts) *)

Record RateLimitConfig := { interval : Z; maxRequests : Z }.

Record RequestLog := { count : Z; resetTime : Z }.

Record RateLimitResult :=
  { success : bool; limit : Z; remaining : Z; reset : Z }.

Definition CREATE_DOCUMENT : RateLimitConfig :=
  {| interval := 60 * 60 * 1000; maxRequests := 10 |}.
Definition UPDATE_DOCUMENT : RateLimitConfig :=
  {| interval := 60 * 60 * 1000; maxRequests := 30 |}.
Definition GET_DOCUMENT : RateLimitConfig :=
  {| interval := 60 * 60 * 1000; maxRequests := 100 |}.

(** [`${identifier}:${endpoint}`] *)
Definition rl_key (identifier endpoint : jsstr) : jsstr :=
  identifier ++ js ":" ++ endpoint.

(** [checkRateLimit identifier endpoint config] at time [now] ([Date.now()]),
    threading the module-level [requestLog] map. The log object stored in
    the map is mutated in place by [log.count++]; the map afterwards holds
    the incremented log under the key. *)
Definition checkRateLimit (requestLog : gmap jsstr RequestLog)
    (identifier endpoint : jsstr) (config : RateLimitConfig) (now : Z)
    : RateLimitResult * gmap jsstr RequestLog :=
  let key := rl_key identifier endpoint in
  let log :=
    match requestLog !! key with
    | Some l => if resetTime l <=? now
                then {| count := 0; resetTime := now + interval config |}
                else l
    | None => {| count := 0; resetTime := now + interval config |}
    end in
  let log' := {| count := count log + 1; resetTime := resetTime log |} in
  let res := {| success := count log' <=? maxRequests config;
                limit := maxRequests config;
                remaining := Z.max 0 (maxRequests config - count log');
                reset := resetTime log' |} in
  (res, <[key := log']> requestLog).

(** A run of calls on one (identifier, endpoint) at the given times,
    collecting the [success] flags. *)
Fixpoint run_checks (requestLog : gmap jsstr RequestLog)
    (identifier endpoint : jsstr) (config : RateLimitConfig) (times : list Z)
    : list bool * gmap jsstr RequestLog :=
  match times with
  | [] => ([], requestLog)
  | t :: ts =>
      let (r, rl1) := checkRateLimit requestLog identifier endpoint config t in
      let (bs, rl2) := run_checks rl1 identifier endpoint config ts in
      (success r :: bs, rl2)
  end.

(* ------------------------------------------------------------------ *)
(** ** Request bodies *)

(** A parsed JSON value ([await request.json()]); numbers are kept as
    integers, only their type and truthiness matter to the handlers. *)
Inductive json :=
| JNull
| JBool (b : bool)
| JNum (n : Z)
| JStr (s : jsstr)
| JArr (l : list json)
| JObj (fields : list (jsstr * json)).

(** [const { f } = body]: destructuring [null] throws a [TypeError]
    ([inl tt]); on an object the last occurrence of a duplicated key wins
    (as in [JSON.parse]); on any other value the property is [undefined]
    ([inr None]). *)
Definition destructure (body : json) (f : jsstr) : unit + option json :=
  match body with
  | JNull => inl tt
  | JObj fs =>
      inr (foldl (fun acc e => if decide (fst e = f) then Some (snd e) else acc)
                 None fs)
  | _ => inr None
  end.

(** The string content when [!encryptedContent || typeof encryptedContent
    !== "string"] is false, i.e. a non-empty string. *)
Definition valid_content (v : option json) : option jsstr :=
  match v with
  | Some (JStr s) => if str_truthy s then Some s else None
  | _ => None
  end.

(** [1024 * 1024 * 10] *)
Definition MAX_CONTENT_LENGTH : Z := 1024 * 1024 * 10.

(** An incoming request: its headers and its body, [None] when
    [request.json()] rejects (the body is not JSON). *)
Record Request := { req_headers : Headers; req_body : option json }.

(** The JSON response of a handler: status code and the [id] it carries. *)
Record Response := { status : Z; resp_id : option jsstr }.

Definition respond (st : Z) : Response := {| status := st; resp_id := None |}.

(* ------------------------------------------------------------------ *)
(** ** The documents table (src/db/schema.ts) *)

Record Document :=
  { id : jsstr;
    encryptedContent : jsstr;
    writeTokenHash : option jsstr;  (* nullable column *)
    createdAt : Z }.

(** Server state: the [documents] table keyed by its primary key [id], and
    the rate limiter's [requestLog]. *)
Record Server := { db : gmap jsstr Document; requestLog : gmap jsstr RequestLog }.

(* ------------------------------------------------------------------ *)
(** ** Route handlers (src/app/api/documents/route.ts and [id]/route.ts) *)

(** [POST /api/documents]. [newId] is the value of [generateId()] and
    [now] the clock. The insert names [id], [encryptedContent] and
    [createdAt] only, so [write_token_hash] is stored as NULL; inserting an
    existing primary key throws and lands in the [catch] (500). *)
Definition POST (srv : Server) (req : Request) (newId : jsstr) (now : Z)
    : Response * Server :=
  let clientIp := getClientIp (req_headers req) in
  let (rateLimitResult, rl) :=
    checkRateLimit (requestLog srv) clientIp (js "create_document")
                   CREATE_DOCUMENT now in
  let srv1 := {| db := db srv; requestLog := rl |} in
  if negb (success rateLimitResult) then (respond 429, srv1) else
  match req_body req with
  | None => (respond 500, srv1)
  | Some body =>
      match destructure body (js "encryptedContent") with
      | inl _ => (respond 500, srv1)
      | inr v =>
          match valid_content v with
          | None => (respond 400, srv1)
          | Some encryptedContent =>
              if MAX_CONTENT_LENGTH <? Z.of_nat (length encryptedContent)
              then (respond 413, srv1)
              else match db srv !! newId with
                   | Some _ => (respond 500, srv1)
                   | None =>
                       let d := {| id := newId; encryptedContent := encryptedContent;
                                   writeTokenHash := None; createdAt := now |} in
                       ({| status := 201; resp_id := Some newId |},
                        {| db := <[newId := d]> (db srv); requestLog := rl |})
                   end
          end
      end
  end.

(** [PUT /api/documents/[id]]: the route parameter [docId] and the
    request. The body's [writeToken] field is never read. *)
Definition PUT (srv : Server) (docId : jsstr) (req : Request) (now : Z)
    : Response * Server :=
  if negb (str_truthy docId) then (respond 400, srv) else
  let (rateLimitResult, rl) :=
    checkRateLimit (requestLog srv) docId (js "update_document")
                   UPDATE_DOCUMENT now in
  let srv1 := {| db := db srv; requestLog := rl |} in
  if negb (success rateLimitResult) then (respond 429, srv1) else
  match req_body req with
  | None => (respond 500, srv1)
  | Some body =>
      match destructure body (js "encryptedContent") with
      | inl _ => (respond 500, srv1)
      | inr v =>
          match valid_content v with
          | None => (respond 400, srv1)
          | Some encryptedContent =>
              if MAX_CONTENT_LENGTH <? Z.of_nat (length encryptedContent)
              then (respond 413, srv1)
              else match db srv !! docId with
                   | None => (respond 404, srv1)
                   | Some existing =>
                       let d := {| id := id existing;
                                   encryptedContent := encryptedContent;
                                   writeTokenHash := writeTokenHash existing;
                                   createdAt := createdAt existing |} in
                       ({| status := 200; resp_id := Some docId |},
                        {| db := <[docId := d]> (db srv); requestLog := rl |})
                   end
          end
      end
  end.

(** [GET /api/documents/[id]]: returns the stored ciphertext. *)
Definition GET (srv : Server) (docId : jsstr) (req : Request) (now : Z)
    : Response * option jsstr * Server :=
  if negb (str_truthy docId) then (respond 400, None, srv) else
  let clientIp := getClientIp (req_headers req) in
  let (rateLimitResult, rl) :=
    checkRateLimit (requestLog srv) clientIp (js "get_document")
                   GET_DOCUMENT now in
  let srv1 := {| db := db srv; requestLog := rl |} in
  if negb (success rateLimitResult) then (respond 429, None, srv1) else
  match db srv !! docId with
  | None => (respond 404, None, srv1)
  | Some d => ({| status := 200; resp_id := Some (id d) |},
               Some (encryptedContent d), srv1)
  end.

(* ------------------------------------------------------------------ *)
(** ** Byte strings and base64 ([btoa]/[atob], forgiving-base64) *)

Definition is_byte (b : Z) : Prop := 0 <= b <= 255.

(** [s.replace(/a/g, b)] and [s.replace(/a/g, "")] for one code unit. *)
Definition replace_unit (a b : Z) (s : jsstr) : jsstr :=
  map (fun c => if c =? a then b else c) s.
Definition remove_unit (a : Z) (s : jsstr) : jsstr :=
  List.filter (fun c => negb (c =? a)) s.

(** The standard base64 alphabet, index to code unit and back. *)
Definition b64_char (i : Z) : Z :=
  if i <? 26 then 65 + i
  else if i <? 52 then 97 + (i - 26)
  else if i <? 62 then 48 + (i - 52)
  else if i =? 62 then 43 else 47.

Definition b64_index (c : Z) : option Z :=
  if (65 <=? c) && (c <=? 90) then Some (c - 65)
  else if (97 <=? c) && (c <=? 122) then Some (c - 71)
  else if (48 <=? c) && (c <=? 57) then Some (c + 4)
  else if c =? 43 then Some 62
  else if c =? 47 then Some 63
  else None.

(** 6-bit groups of a byte sequence, 24 bits at a time; a final partial
    group is completed with zero bits. *)
Fixpoint b64_sextets (bs : list Z) : list Z :=
  match bs with
  | b1 :: b2 :: b3 :: r =>
      b1 / 4 :: (b1 mod 4) * 16 + b2 / 16 :: (b2 mod 16) * 4 + b3 / 64 :: b3 mod 64
        :: b64_sextets r
  | [b1; b2] => [b1 / 4; (b1 mod 4) * 16 + b2 / 16; (b2 mod 16) * 4]
  | [b1] => [b1 / 4; (b1 mod 4) * 16]
  | [] => []
  end.

(** ["="] padding of the last group. *)
Definition b64_padding (n : nat) : jsstr :=
  match (n mod 3)%nat with
  | 1%nat => [61; 61]
  | 2%nat => [61]
  | _ => []
  end.

(** [btoa]: throws ([None]) on a code unit above 255. *)
Definition btoa (s : jsstr) : option jsstr :=
  if forallb (fun u => (0 <=? u) && (u <=? 255)) s
  then Some (map b64_char (b64_sextets s) ++ b64_padding (length s))
  else None.

(** Bytes of a sequence of 6-bit values; a final group of 3 (resp. 2)
    values gives 2 (resp. 1) bytes, its last 2 (resp. 4) bits discarded. *)
Fixpoint b64_bytes (xs : list Z) : list Z :=
  match xs with
  | i1 :: i2 :: i3 :: i4 :: r =>
      i1 * 4 + i2 / 16 :: (i2 mod 16) * 16 + i3 / 4 :: (i3 mod 4) * 64 + i4
        :: b64_bytes r
  | [i1; i2; i3] => [i1 * 4 + i2 / 16; (i2 mod 16) * 16 + i3 / 4]
  | [i1; i2] => [i1 * 4 + i2 / 16]
  | _ => []
  end.

Definition is_ascii_ws (c : Z) : bool :=
  (c =? 9) || (c =? 10) || (c =? 12) || (c =? 13) || (c =? 32).

(** When the length is a multiple of 4, one or two trailing ["="] go. *)
Definition strip_padding (s : jsstr) : jsstr :=
  if Nat.eqb (length s mod 4) 0 then
    match rev s with
    | a :: b :: r =>
        if (a =? 61) && (b =? 61) then rev r
        else if a =? 61 then rev (b :: r) else s
    | [a] => if a =? 61 then [] else s
    | [] => s
    end
  else s.

Fixpoint b64_indices (s : jsstr) : option (list Z) :=
  match s with
  | [] => Some []
  | c :: r =>
      match b64_index c, b64_indices r with
      | Some i, Some is => Some (i :: is)
      | _, _ => None
      end
  end.

(** [atob]: forgiving-base64 decode; [None] is the InvalidCharacterError. *)
Definition atob (s : jsstr) : option jsstr :=
  let d := strip_padding (List.filter (fun c => negb (is_ascii_ws c)) s) in
  if Nat.eqb (length d mod 4) 1 then None
  else match b64_indices d with
       | Some xs => Some (b64_bytes xs)
       | None => None
       end.

(** [arrayBufferToBase64]: one code unit per byte, [btoa], then
    [+] to [-], [/] to [_] and every [=] removed. *)
Definition arrayBufferToBase64 (bytes : list Z) : option jsstr :=
  match btoa bytes with
  | Some b => Some (remove_unit 61 (replace_unit 47 95 (replace_unit 43 45 b)))
  | None => None
  end.

(** [base64ToArrayBuffer]: back to the standard alphabet, ["="] padding up
    to a multiple of 4, [atob], one byte per code unit. *)
Definition base64ToArrayBuffer (base64 : jsstr) : option (list Z) :=
  let standardBase64 := replace_unit 95 47 (replace_unit 45 43 base64) in
  let padding := repeat 61 ((4 - length standardBase64 mod 4) mod 4) in
  atob (standardBase64 ++ padding).

(* ------------------------------------------------------------------ *)
(** ** [TextEncoder] and [TextDecoder] (UTF-8) *)

Definition is_lead (u : Z) : bool := (55296 <=? u) && (u <=? 56319).
Definition is_trail (u : Z) : bool := (56320 <=? u) && (u <=? 57343).

(** The scalar values of a JavaScript string: a lead surrogate followed by
    a trail surrogate is one code point, any other surrogate is U+FFFD. *)
Fixpoint code_points (s : jsstr) : list Z :=
  match s with
  | [] => []
  | u :: r =>
      if is_lead u then
        match r with
        | v :: r' =>
            if is_trail v then 65536 + (u - 55296) * 1024 + (v - 56320) :: code_points r'
            else 65533 :: code_points r
        | [] => [65533]
        end
      else if is_trail u then 65533 :: code_points r
      else u :: code_points r
  end.

Definition utf8_encode_cp (c : Z) : list Z :=
  if c <? 128 then [c]
  else if c <? 2048 then [192 + c / 64; 128 + c mod 64]
  else if c <? 65536 then [224 + c / 4096; 128 + (c / 64) mod 64; 128 + c mod 64]
  else [240 + c / 262144; 128 + (c / 4096) mod 64; 128 + (c / 64) mod 64;
        128 + c mod 64].

(** [new TextEncoder().encode(s)] *)
Definition TextEncoder_encode (s : jsstr) : list Z :=
  flat_map utf8_encode_cp (code_points s).

(** The state of the UTF-8 decoder of the Encoding Standard. *)
Record utf8_state :=
  { utf8_cp : Z; bytes_needed : Z; bytes_seen : Z; lower_boundary : Z;
    upper_boundary : Z }.

Definition utf8_init : utf8_state :=
  {| utf8_cp := 0; bytes_needed := 0; bytes_seen := 0; lower_boundary := 128;
     upper_boundary := 191 |}.

(** A byte read while no continuation byte is expected: the code points
    emitted and the next state. *)
Definition utf8_start (b : Z) : list Z * utf8_state :=
  if b <=? 127 then ([b], utf8_init)
  else if (194 <=? b) && (b <=? 223) then
    ([], {| utf8_cp := b mod 32; bytes_needed := 1; bytes_seen := 0;
            lower_boundary := 128; upper_boundary := 191 |})
  else if (224 <=? b) && (b <=? 239) then
    ([], {| utf8_cp := b mod 16; bytes_needed := 2; bytes_seen := 0;
            lower_boundary := if b =? 224 then 160 else 128;
            upper_boundary := if b =? 237 then 159 else 191 |})
  else if (240 <=? b) && (b <=? 244) then
    ([], {| utf8_cp := b mod 8; bytes_needed := 3; bytes_seen := 0;
            lower_boundary := if b =? 240 then 144 else 128;
            upper_boundary := if b =? 244 then 143 else 191 |})
  else ([65533], utf8_init).

(** One byte: a byte outside the boundaries is an error (U+FFFD) and is
    processed again from the initial state. *)
Definition utf8_step (st : utf8_state) (b : Z) : list Z * utf8_state :=
  if bytes_needed st =? 0 then utf8_start b
  else if negb ((lower_boundary st <=? b) && (b <=? upper_boundary st)) then
    (65533 :: fst (utf8_start b), snd (utf8_start b))
  else
    let c := utf8_cp st * 64 + b mod 64 in
    if bytes_seen st + 1 =? bytes_needed st then ([c], utf8_init)
    else ([], {| utf8_cp := c; bytes_needed := bytes_needed st;
                 bytes_seen := bytes_seen st + 1; lower_boundary := 128;
                 upper_boundary := 191 |}).

(** The decoder over a byte sequence; an unfinished sequence at the end
    is an error. *)
Fixpoint utf8_decode_from (st : utf8_state) (bs : list Z) : list Z :=
  match bs with
  | [] => if bytes_needed st =? 0 then [] else [65533]
  | b :: r => fst (utf8_step st b) ++ utf8_decode_from (snd (utf8_step st b)) r
  end.

Definition utf16_of_cp (c : Z) : jsstr :=
  if c <? 65536 then [c]
  else [55296 + (c - 65536) / 1024; 56320 + (c - 65536) mod 1024].

(** UTF-8 decode without BOM handling. *)
Definition utf8_decode_without_bom (bs : list Z) : jsstr :=
  flat_map utf16_of_cp (utf8_decode_from utf8_init bs).

(** [new TextDecoder().decode(bytes)]: a leading U+FEFF is dropped
    (the decoder's BOM handling is on by default). *)
Definition TextDecoder_decode (bs : list Z) : jsstr :=
  let cps := utf8_decode_from utf8_init bs in
  let cps' := match cps with
              | c :: r => if c =? 65279 then r else cps
              | [] => []
              end in
  flat_map utf16_of_cp cps'.

(* ------------------------------------------------------------------ *)
(** ** [encrypt] and [decrypt] (src/lib/rate-limit.ts) *)

(** AES-GCM of Web Crypto is kept abstract: [aes_gcm_encrypt key iv data]
    is the ciphertext with its tag, [aes_gcm_decrypt key iv data] is
    [None] when [crypto.subtle.decrypt] rejects (tag mismatch, input too
    short). The IV drawn by [crypto.getRandomValues] is an argument. *)
Section WebCrypto.
Context {CryptoKey : Type}.
Variable aes_gcm_encrypt : CryptoKey -> list Z -> list Z -> list Z.
Variable aes_gcm_decrypt : CryptoKey -> list Z -> list Z -> option (list Z).

Definition IV_LENGTH : nat := 12.

(** [encrypt(plaintext, key)] with the IV [iv]; [None] if the promise
    rejects. *)
Definition encrypt (plaintext : jsstr) (key : CryptoKey) (iv : list Z) : option jsstr :=
  let data := TextEncoder_encode plaintext in
  let encrypted := aes_gcm_encrypt key iv data in
  arrayBufferToBase64 (iv ++ encrypted).

(** [decrypt(ciphertext, key)]; [None] if the promise rejects. *)
Definition decrypt (ciphertext : jsstr) (key : CryptoKey) : option jsstr :=
  match base64ToArrayBuffer ciphertext with
  | None => None
  | Some combined =>
      let iv := firstn IV_LENGTH combined in
      let encrypted := skipn IV_LENGTH combined in
      match aes_gcm_decrypt key iv encrypted with
      | None => None
      | Some decrypted => Some (TextDecoder_decode decrypted)
      end
  end.

End WebCrypto.

(* ------------------------------------------------------------------ *)
(** ** Capability fragments (src/app/page.tsx) *)

Definition is_hex_digit (c : Z) : bool :=
  ((48 <=? c) && (c <=? 57)) || ((65 <=? c) && (c <=? 70)) || ((97 <=? c) && (c <=? 102)).

Definition hex_value (c : Z) : Z :=
  if c <=? 57 then c - 48 else if c <=? 70 then c - 55 else c - 87.

(** Percent-decoding of a byte sequence. *)
Fixpoint percent_decode (bs : list Z) : list Z :=
  match bs with
  | [] => []
  | b :: r =>
      if b =? 37 then
        match r with
        | h1 :: h2 :: r' =>
            if is_hex_digit h1 && is_hex_digit h2
            then hex_value h1 * 16 + hex_value h2 :: percent_decode r'
            else 37 :: percent_decode r
        | _ => 37 :: percent_decode r
        end
      else b :: percent_decode r
  end.

(** The bytes before the first [c], and those after it ([[]] if none). *)
Fixpoint break_at (c : Z) (s : list Z) : list Z * list Z :=
  match s with
  | [] => ([], [])
  | x :: r => if x =? c then ([], r) else (x :: fst (break_at c r), snd (break_at c r))
  end.

(** A name or value of [application/x-www-form-urlencoded]. *)
Definition form_component (bs : list Z) : jsstr :=
  utf8_decode_without_bom (percent_decode (replace_unit 43 32 bs)).

(** The urlencoded parser: UTF-8 bytes split on [&], empty sequences
    skipped, each split at its first [=]. *)
Definition urlencoded_parse (input : jsstr) : list (jsstr * jsstr) :=
  flat_map (fun sq => match sq with
                      | [] => []
                      | _ => [(form_component (fst (break_at 61 sq)),
                               form_component (snd (break_at 61 sq)))]
                      end)
           (split_on 38 (TextEncoder_encode input)).

(** [new URLSearchParams(init).get(name)]: a leading [?] is removed; the
    value of the first pair with that name, or [null]. *)
Definition URLSearchParams_get (init name : jsstr) : option jsstr :=
  let init' := match init with c :: r => if c =? 63 then r else init | [] => [] end in
  match List.find (fun p => if decide (fst p = name) then true else false)
                  (urlencoded_parse init') with
  | Some p => Some (snd p)
  | None => None
  end.

(** The key and optional token of ["key&write=token"] or ["key"], as both
    [loadFromUrl] (src/app/page.tsx) and the view page parse it. *)
Definition parse_key_token (keyAndToken : jsstr) : jsstr * option jsstr :=
  let tokenString := URLSearchParams_get keyAndToken (js "write") in
  let keyString := if opt_truthy tokenString
                   then nth_piece (split_on 38 keyAndToken) 0
                   else keyAndToken in
  (keyString, tokenString).

Inductive LoadOutcome :=
| NewDocument                     (* no fragment *)
| InvalidFormat                   (* logged, nothing loaded *)
| LoadDocument (docId keyString : jsstr) (tokenString : option jsstr).

(** [loadFromUrl] on [window.location.hash.substring(1)]: the values it
    goes on to fetch and decrypt with. *)
Definition loadFromUrl (hash : jsstr) : LoadOutcome :=
  match hash with
  | [] => NewDocument
  | _ =>
      let parts := split_on 35 hash in
      if (length parts <? 2)%nat then InvalidFormat
      else
        let docId := nth_piece parts 0 in
        let keyAndToken := nth_piece parts 1 in
        LoadDocument docId (fst (parse_key_token keyAndToken))
                     (snd (parse_key_token keyAndToken))
  end.

(** The fragment the editor navigates to ([loadDocument], [handleShare]):
    [`${id}#${key}&write=${token}`], or [`${id}#${key}`] without token. *)
Definition capability_fragment (docId key writeToken : jsstr) : jsstr :=
  if str_truthy writeToken
  then docId ++ js "#" ++ key ++ js "&write=" ++ writeToken
  else docId ++ js "#" ++ key.

(* ------------------------------------------------------------------ *)
(** ** Predicates of the statements *)

(** A string whose code units are in range and whose surrogates all come
    in lead/trail pairs (a well-formed UTF-16 string). *)
Fixpoint well_formed_utf16 (s : jsstr) : bool :=
  match s with
  | [] => true
  | u :: r =>
      (0 <=? u) && (u <=? 65535) &&
      (if is_lead u then
         match r with
         | v :: r' => is_trail v && well_formed_utf16 r'
         | [] => false
         end
       else negb (is_trail u) && well_formed_utf16 r)
  end.

(** The pre-existence checks of [PUT] passed: non-empty route id, the
    per-document rate limit admits the call, the body parses, and its
    [encryptedContent] is a non-empty string [c] within the size limit. *)
Definition PUT_admits (srv : Server) (docId : jsstr) (req : Request) (now : Z)
    (c : jsstr) : Prop :=
  str_truthy docId = true /\
  success (fst (checkRateLimit (requestLog srv) docId (js "update_document")
                               UPDATE_DOCUMENT now)) = true /\
  exists body v, req_body req = Some body /\
    destructure body (js "encryptedContent") = inr v /\
    valid_content v = Some c /\ Z.of_nat (length c) <= MAX_CONTENT_LENGTH.

(** The record [PUT] writes back: only [encryptedContent] is replaced. *)
Definition with_content (d : Document) (c : jsstr) : Document :=
  {| id := id d; encryptedContent := c; writeTokenHash := writeTokenHash d;
     createdAt := createdAt d |}.

(** A request whose JSON body is the object [fields]. *)
Definition json_request (fields : list (jsstr * json)) : Request :=
  {| req_headers := []; req_body := Some (JObj fields) |}.

Definition empty_server : Server := {| db := ∅; requestLog := ∅ |}.

Definition stored_doc_with_hash : Document :=
  {| id := js "d1"; encryptedContent := js "old"; writeTokenHash := Some (js "h");
     createdAt := 0 |}.

Definition server_with_hash : Server :=
  {| db := {[ js "d1" := stored_doc_with_hash ]}; requestLog := ∅ |}.

Definition server_two_docs : Server :=
  {| db := {[ js "d1" := stored_doc_with_hash ]} ∪
           {[ js "d2" := {| id := js "d2"; encryptedContent := js "other";
                            writeTokenHash := None; createdAt := 5 |} ]};
     requestLog := ∅ |}.

(** The URL-safe base64 alphabet of keys and tokens (which also covers the
    lower-case hex of document ids). *)
Definition is_url_safe (c : Z) : bool :=
  ((65 <=? c) && (c <=? 90)) || ((97 <=? c) && (c <=? 122)) ||
  ((48 <=? c) && (c <=? 57)) || (c =? 45) || (c =? 95).

Definition url_safe (s : jsstr) : Prop := Forall (fun c => is_url_safe c = true) s.

(** A stand-in for AES-GCM with the properties the statements assume of
    it: the ciphertext is the message followed by a 16-byte tag made from
    the key, and opening checks the whole ciphertext against it. It is used
    to instantiate those assumptions in the examples. *)
Definition toy_seal (k : Z) (iv m : list Z) : list Z := m ++ repeat (k mod 256) 16.

Definition toy_open (k : Z) (iv c : list Z) : option (list Z) :=
  let m := firstn (length c - 16) c in
  if decide (c = toy_seal k iv m) then Some m else None.

(* ------------------------------------------------------------------ *)
(** ** The cleanup timer of the rate limiter (src/lib/rate-limit.ts) *)

(** One firing of the [setInterval] callback at time [now]: every entry
    whose [resetTime] is before [now] is deleted (deleting the current
    entry while iterating a [Map] still visits every other entry). *)
Definition cleanup (requestLog : gmap jsstr RequestLog) (now : Z)
    : gmap jsstr RequestLog :=
  filter (fun kv => ~ (resetTime kv.2 < now)) requestLog.

(** What happens to the module-level [requestLog] over time: calls of
    [checkRateLimit] and firings of the cleanup timer, in order. *)
Inductive LimiterEvent :=
| Call (identifier endpoint : jsstr) (config : RateLimitConfig) (now : Z)
| Cleanup (now : Z).

Definition event_time (e : LimiterEvent) : Z :=
  match e with Call _ _ _ t => t | Cleanup t => t end.

Definition is_call (e : LimiterEvent) : bool :=
  match e with Call _ _ _ _ => true | Cleanup _ => false end.

(** The results of the calls of a run. *)
Fixpoint run_limiter (requestLog : gmap jsstr RequestLog) (evs : list LimiterEvent)
    : list RateLimitResult :=
  match evs with
  | [] => []
  | Call identifier endpoint config now :: r =>
      let (res, rl) := checkRateLimit requestLog identifier endpoint config now in
      res :: run_limiter rl r
  | Cleanup now :: r => run_limiter (cleanup requestLog now) r
  end.

(** Clock readings that start at [t] or later and never go back. *)
Fixpoint times_from (t : Z) (ts : list Z) : bool :=
  match ts with
  | [] => true
  | t' :: r => (t <=? t') && times_from t' r
  end.

(* ------------------------------------------------------------------ *)
(** ** Rate-limit responses (src/lib/rate-limit.ts) *)

Definition digit_char (d : Z) : Z := if d <? 10 then 48 + d else 87 + d.

Fixpoint to_digits (fuel : nat) (radix n : Z) (acc : jsstr) : jsstr :=
  match fuel with
  | O => acc
  | S f =>
      let acc' := digit_char (n mod radix) :: acc in
      if n <? radix then acc' else to_digits f radix (n / radix) acc'
  end.

(** [n.toString(radix)] for a number [n] with an integral value (below
    10^21 in magnitude, so written without exponent); digits above 9 are
    lower-case letters. [Z.log2 |n| + 1] steps are enough for any radix. *)
Definition Number_toString_radix (radix n : Z) : jsstr :=
  let fuel := S (Z.to_nat (Z.log2 (Z.abs n))) in
  if n <? 0 then 45 :: to_digits fuel radix (- n) []
  else to_digits fuel radix n [].

Definition Number_toString (n : Z) : jsstr := Number_toString_radix 10 n.

(** [Math.ceil(x / 1000)] for an integer [x]. *)
Definition ceil_div1000 (x : Z) : Z := - ((- x) / 1000).

(** A [Response] as its status and header list (lower-cased names); the
    JSON body is not modelled. *)
Record HttpResponse := { hstatus : Z; hheaders : Headers }.

(** [createRateLimitResponse(limit, remaining, reset)], [now] being the
    [Date.now()] it reads. *)
Definition createRateLimitResponse (limit remaining reset now : Z) : HttpResponse :=
  {| hstatus := 429;
     hheaders :=
       [(js "content-type", js "application/json");
        (js "x-ratelimit-limit", Number_toString limit);
        (js "x-ratelimit-remaining", js "0");
        (js "x-ratelimit-reset", Number_toString reset);
        (js "retry-after", Number_toString (ceil_div1000 (reset - now)))] |}.

(** [Headers.set(name, value)]: the first entry of that name takes the
    value and the other entries of that name are removed; without such an
    entry the pair is appended. *)
Fixpoint set_first (h : Headers) (name value : jsstr) : Headers :=
  match h with
  | [] => []
  | e :: r =>
      if decide (fst e = name) then (name, value) :: filter (fun e' => fst e' <> name) r
      else e :: set_first r name value
  end.

Definition headers_set (h : Headers) (name value : jsstr) : Headers :=
  if existsb (fun e => bool_decide (fst e = name)) h then set_first h name value
  else h ++ [(name, value)].

(** [addRateLimitHeaders(response, limit, remaining, reset)] *)
Definition addRateLimitHeaders (response : HttpResponse) (limit remaining reset : Z)
    : HttpResponse :=
  let headers := hheaders response in
  let headers := headers_set headers (js "x-ratelimit-limit") (Number_toString limit) in
  let headers := headers_set headers (js "x-ratelimit-remaining") (Number_toString remaining) in
  let headers := headers_set headers (js "x-ratelimit-reset") (Number_toString reset) in
  {| hstatus := hstatus response; hheaders := headers |}.

(* ------------------------------------------------------------------ *)
(** ** Identifiers, write tokens and keys (src/lib/rate-limit.ts) *)

(** [s.padStart(targetLength, pad)] for a one-unit [pad]. *)
Definition padStart (s : jsstr) (targetLength : nat) (pad : Z) : jsstr :=
  repeat pad (targetLength - length s) ++ s.

(** [generateId()] on the bytes [crypto.getRandomValues] filled in. *)
Definition generateId (bytes : list Z) : jsstr :=
  concat (map (fun b => padStart (Number_toString_radix 16 b) 2 48) bytes).

(** The characters [generateId] writes: lower-case hexadecimal digits. *)
Definition is_lower_hex (c : Z) : bool :=
  ((48 <=? c) && (c <=? 57)) || ((97 <=? c) && (c <=? 102)).

(** [generateWriteToken()] on the random bytes. *)
Definition generateWriteToken (bytes : list Z) : option jsstr :=
  arrayBufferToBase64 bytes.

(** SHA-256 ([crypto.subtle.digest]) and the raw export and import of an
    AES-GCM key are kept abstract. *)
Section KeysAndTokens.
Variable sha256 : list Z -> list Z.

(** [hashWriteToken(token)]; [None] if the promise rejects. *)
Definition hashWriteToken (token : jsstr) : option jsstr :=
  let data := TextEncoder_encode token in
  let hashBuffer := sha256 data in
  arrayBufferToBase64 hashBuffer.

(** [verifyWriteToken(token, hash)] *)
Definition verifyWriteToken (token hash : jsstr) : option bool :=
  match hashWriteToken token with
  | Some computedHash => Some (bool_decide (computedHash = hash))
  | None => None
  end.

Context {CryptoKey : Type}.
Variable exportRaw : CryptoKey -> list Z.
Variable importRaw : list Z -> option CryptoKey.

(** [exportKey(key)] *)
Definition exportKey (key : CryptoKey) : option jsstr :=
  arrayBufferToBase64 (exportRaw key).

(** [importKey(keyString)]; [None] if [atob] throws or the import rejects. *)
Definition importKey (keyString : jsstr) : option CryptoKey :=
  match base64ToArrayBuffer keyString with
  | Some keyData => importRaw keyData
  | None => None
  end.
End KeysAndTokens.

(* ------------------------------------------------------------------ *)
(** ** Links (src/app/page.tsx and the view page) *)

(** [getReadOnlyUrl()] with [window.location.origin] = [origin]. *)
Definition getReadOnlyUrl (origin : jsstr) (documentId encryptionKey : option jsstr)
    : option jsstr :=
  if negb (opt_truthy documentId) || negb (opt_truthy encryptionKey) then None
  else Some (origin ++ js "/view/" ++ default [] documentId ++ js "#" ++
             default [] encryptionKey).

(** [getEditableUrl()] *)
Definition getEditableUrl (origin : jsstr) (documentId encryptionKey writeToken : option jsstr)
    : option jsstr :=
  if negb (opt_truthy documentId) || negb (opt_truthy encryptionKey) ||
     negb (opt_truthy writeToken) then None
  else Some (origin ++ js "/#" ++ default [] documentId ++ js "#" ++
             default [] encryptionKey ++ js "&write=" ++ default [] writeToken).

(** [window.location.hash.substring(1)] once the browser is at [url]: the
    text after the first ['#'], empty when there is none (for URLs whose
    fragment needs no percent-encoding). *)
Definition location_fragment (url : jsstr) : jsstr := snd (break_at 35 url).

(** The view page's [loadDocument]: the key and token it goes on to use,
    [None] when it throws for an empty fragment. *)
Definition view_keys (hash : jsstr) : option (jsstr * option jsstr) :=
  match hash with
  | [] => None
  | _ => Some (parse_key_token hash)
  end.

(** The fragment [handleShare] navigates to. *)
Definition share_hash (id keyString token : jsstr) : jsstr :=
  id ++ js "#" ++ keyString ++ js "&write=" ++ token.

(** The view page's [openInEditor]: the [href] it navigates to, [None]
    when it returns early for a missing key. [encryptionKey] and
    [writeToken] are the page state set by its [loadDocument]. *)
Definition openInEditor (id : jsstr) (encryptionKey writeToken : option jsstr)
    : option jsstr :=
  if negb (opt_truthy encryptionKey) then None else
  let hash := if opt_truthy writeToken
              then id ++ js "#" ++ default [] encryptionKey ++ js "&write=" ++
                   default [] writeToken
              else id ++ js "#" ++ default [] encryptionKey in
  Some (js "/#" ++ hash).

(* ------------------------------------------------------------------ *)
(** ** Local document history (src/lib/document-history.ts) *)

Module DocumentHistory.

Record DocumentMetadata :=
  { id : jsstr;
    encryptionKey : jsstr;
    writeToken : jsstr;
    title : jsstr;
    createdAt : Z;
    lastModified : Z }.

(** The [localStorage] item [STORAGE_KEY]: [None] when it was never set,
    otherwise the array last stored ([JSON.parse] gives back what
    [JSON.stringify] wrote). *)
Definition Storage := option (list DocumentMetadata).

Definition getDocumentHistory (data : Storage) : list DocumentMetadata :=
  match data with Some history => history | None => [] end.

Definition saveToHistory (data : Storage) (doc : DocumentMetadata) : Storage :=
  let history := getDocumentHistory data in
  let filtered := filter (fun d => id d <> id doc) history in
  let updated := doc :: filtered in
  let limited := take 50 updated in
  Some limited.

Definition removeFromHistory (data : Storage) (i : jsstr) : Storage :=
  let history := getDocumentHistory data in
  Some (filter (fun d => id d <> i) history).

Definition getDocumentFromHistory (data : Storage) (i : jsstr) : option DocumentMetadata :=
  List.find (fun d => bool_decide (id d = i)) (getDocumentHistory data).

Definition starts_with_hash (s : jsstr) : bool :=
  match s with c :: _ => c =? 35 | [] => false end.

(** [s.replace(/^#+\s*/, "")] on a string that starts with ['#']. *)
Fixpoint drop_hashes (s : jsstr) : jsstr :=
  match s with
  | c :: r => if c =? 35 then drop_hashes r else s
  | [] => []
  end.

Definition extractTitle (content : jsstr) : jsstr :=
  if negb (str_truthy content) then js "Untitled" else
  let lines := split_on 10 content in
  match List.find (fun line => starts_with_hash (trim line)) lines with
  | Some line =>
      let t := trim (drop_ws (drop_hashes (trim line))) in
      if str_truthy t then t else js "Untitled"
  | None =>
      match List.find (fun line => str_truthy (trim line)) lines with
      | Some line =>
          let trimmed := trim line in
          take 50 trimmed ++ (if (50 <? length trimmed)%nat then js "..." else [])
      | None => js "Untitled"
      end
  end.

End DocumentHistory.

(** ** The cleanup timer *)

(** An entry as [checkRateLimit] at time [t] sees it: an entry whose window
    has ended counts as absent. *)
Definition live (t : Z) (o : option RequestLog) : option RequestLog :=
  match o with
  | Some l => if resetTime l <=? t then None else Some l
  | None => None
  end.

Definition agree (t : Z) (rl1 rl2 : gmap jsstr RequestLog) : Prop :=
  forall k, live t (rl1 !! k) = live t (rl2 !! k).

(** A history entry with the given id, for concrete histories. *)
Definition sample_entry (i : jsstr) : DocumentHistory.DocumentMetadata :=
  {| DocumentHistory.id := i; DocumentHistory.encryptionKey := js "k";
     DocumentHistory.writeToken := js "t"; DocumentHistory.title := js "Untitled";
     DocumentHistory.createdAt := 0; DocumentHistory.lastModified := 0 |}.

(** A full history of 50 entries with ids [[0]] to [[49]]. *)
Definition full_history : DocumentHistory.Storage :=
  Some (map (fun n => sample_entry [Z.of_nat n]) (seq 0 50)).

(* ================================================================== *)
(** * Properties *)

Example checkRateLimit_example :
  let cfg := {| interval := 100; maxRequests := 2 |} in
  fst (run_checks ∅ (js "ip") (js "e") cfg [0; 1; 2; 3; 100; 101]) =
  [true; true; false; false; true; true].
Proof. reflexivity. Qed.

(* ------------------------------------------------------------------ *)
(** ** The rate limiter *)

Section RateLimiter.
Variables (identifier endpoint : jsstr) (config : RateLimitConfig).

Lemma checkRateLimit_fresh (rl : gmap jsstr RequestLog) now :
  (forall l, rl !! rl_key identifier endpoint = Some l -> resetTime l <= now) ->
  success (fst (checkRateLimit rl identifier endpoint config now))
    = (1 <=? maxRequests config) /\
  snd (checkRateLimit rl identifier endpoint config now)
    = <[rl_key identifier endpoint :=
          {| count := 1; resetTime := now + interval config |}]> rl.
Proof.
  intros Hexp. unfold checkRateLimit.
  destruct (rl !! rl_key identifier endpoint) as [l|] eqn:Hl; simpl.
  - specialize (Hexp l eq_refl).
    destruct (Z.leb_spec (resetTime l) now); [|lia]. simpl. auto.
  - auto.
Qed.

Lemma checkRateLimit_open (rl : gmap jsstr RequestLog) l now :
  rl !! rl_key identifier endpoint = Some l -> now < resetTime l ->
  success (fst (checkRateLimit rl identifier endpoint config now))
    = (count l + 1 <=? maxRequests config) /\
  snd (checkRateLimit rl identifier endpoint config now)
    = <[rl_key identifier endpoint :=
          {| count := count l + 1; resetTime := resetTime l |}]> rl.
Proof.
  intros Hl Hnow. unfold checkRateLimit. rewrite Hl.
  destruct (Z.leb_spec (resetTime l) now); [lia|]. simpl. auto.
Qed.

Lemma run_checks_cons rl t ts :
  run_checks rl identifier endpoint config (t :: ts) =
  (success (fst (checkRateLimit rl identifier endpoint config t))
     :: fst (run_checks (snd (checkRateLimit rl identifier endpoint config t))
                        identifier endpoint config ts),
   snd (run_checks (snd (checkRateLimit rl identifier endpoint config t))
                   identifier endpoint config ts)).
Proof.
  cbn [run_checks].
  destruct (checkRateLimit rl identifier endpoint config t) as [r rl1].
  cbn [fst snd]. destruct (run_checks rl1 identifier endpoint config ts).
  reflexivity.
Qed.

(** Inside an open window every call adds one to the count. *)
Lemma run_checks_in_window (rl : gmap jsstr RequestLog) l ts :
  rl !! rl_key identifier endpoint = Some l ->
  Forall (fun t => t < resetTime l) ts ->
  fst (run_checks rl identifier endpoint config ts) =
    map (fun i => count l + Z.of_nat i <=? maxRequests config) (seq 1 (length ts)) /\
  snd (run_checks rl identifier endpoint config ts) !! rl_key identifier endpoint =
    Some {| count := count l + Z.of_nat (length ts); resetTime := resetTime l |}.
Proof.
  revert rl l. induction ts as [|t ts IH]; intros rl l Hl Hts.
  - simpl. rewrite Z.add_0_r. destruct l; auto.
  - inversion Hts as [|? ? Ht Hts']; subst.
    destruct (checkRateLimit_open rl l t Hl Ht) as [Hs Hrl].
    rewrite run_checks_cons, Hs, Hrl.
    destruct (IH (<[rl_key identifier endpoint :=
                   {| count := count l + 1; resetTime := resetTime l |}]> rl)
                 {| count := count l + 1; resetTime := resetTime l |})
      as [Hbs Hlog]; [by rewrite lookup_insert_eq | exact Hts' |].
    simpl in Hbs, Hlog. simpl. split.
    + rewrite Hbs. f_equal. rewrite <- (seq_shift (length ts) 1), map_map.
      apply map_ext. intros i. f_equal. lia.
    + rewrite Hlog. do 2 f_equal. lia.
Qed.

End RateLimiter.

(** C3: starting from no window or an expired one for the key of
    (identifier, endpoint), the first call opens the window
    [{count, resetTime := t0 + interval}]; the i-th call of the run made
    before [resetTime] succeeds iff [i <= maxRequests] (so the N-th
    succeeds and every later one fails), the count after the run is the
    number of calls, and the first call at or after [resetTime] starts a
    new window whose count is 1 after its own increment. *)
Theorem checkRateLimit_fixed_window (rl : gmap jsstr RequestLog)
    identifier endpoint config t0 (ts : list Z) :
  (forall l, rl !! rl_key identifier endpoint = Some l -> resetTime l <= t0) ->
  Forall (fun t => t < t0 + interval config) ts ->
  fst (run_checks rl identifier endpoint config (t0 :: ts)) =
    map (fun i => Z.of_nat i <=? maxRequests config) (seq 1 (S (length ts))) /\
  snd (run_checks rl identifier endpoint config (t0 :: ts)) !! rl_key identifier endpoint =
    Some {| count := Z.of_nat (S (length ts)); resetTime := t0 + interval config |} /\
  (forall t, t0 + interval config <= t ->
     let rl' := snd (run_checks rl identifier endpoint config (t0 :: ts)) in
     success (fst (checkRateLimit rl' identifier endpoint config t))
       = (1 <=? maxRequests config) /\
     snd (checkRateLimit rl' identifier endpoint config t) !! rl_key identifier endpoint
       = Some {| count := 1; resetTime := t + interval config |}).
Proof.
  intros Hfresh Hts.
  destruct (checkRateLimit_fresh identifier endpoint config rl t0 Hfresh) as [Hs Hrl].
  rewrite run_checks_cons, Hs, Hrl. cbn [fst snd].
  destruct (run_checks_in_window identifier endpoint config
              (<[rl_key identifier endpoint :=
                   {| count := 1; resetTime := t0 + interval config |}]> rl)
              {| count := 1; resetTime := t0 + interval config |} ts)
    as [Hbs Hlog]; [by rewrite lookup_insert_eq | exact Hts |].
  simpl in Hbs, Hlog. split; [|split].
  - rewrite Hbs. simpl. f_equal.
    rewrite <- (seq_shift (length ts) 1), map_map.
    apply map_ext. intros i. f_equal. lia.
  - rewrite Hlog. do 2 f_equal. lia.
  - intros t Ht. cbv zeta.
    assert (Hexp : forall l,
      snd (run_checks (<[rl_key identifier endpoint :=
                         {| count := 1; resetTime := t0 + interval config |}]> rl)
                      identifier endpoint config ts) !! rl_key identifier endpoint = Some l ->
      resetTime l <= t).
    { intros l Hl. rewrite Hlog in Hl. injection Hl as <-. simpl. lia. }
    destruct (checkRateLimit_fresh identifier endpoint config _ t Hexp) as [Hs' Hrl'].
    split; [exact Hs'|]. rewrite Hrl'. apply lookup_insert_eq.
Qed.

Lemma checkRateLimit_fixed_window_witness :
  (forall l, (∅ : gmap jsstr RequestLog) !! rl_key (js "1.2.3.4") (js "create_document")
               = Some l -> resetTime l <= 0) /\
  Forall (fun t => t < 0 + interval CREATE_DOCUMENT) [1; 2; 3] /\
  fst (run_checks ∅ (js "1.2.3.4") (js "create_document") CREATE_DOCUMENT [0; 1; 2; 3]) =
    map (fun i => Z.of_nat i <=? maxRequests CREATE_DOCUMENT) (seq 1 4).
Proof.
  assert (H1 : forall l, (∅ : gmap jsstr RequestLog) !! rl_key (js "1.2.3.4")
                 (js "create_document") = Some l -> resetTime l <= 0).
  { intros l Hl. rewrite lookup_empty in Hl. discriminate. }
  assert (H2 : Forall (fun t => t < 0 + interval CREATE_DOCUMENT) [1; 2; 3]).
  { repeat constructor; simpl; lia. }
  split; [exact H1|]. split; [exact H2|].
  exact (proj1 (checkRateLimit_fixed_window ∅ (js "1.2.3.4") (js "create_document")
                  CREATE_DOCUMENT 0 [1; 2; 3] H1 H2)).
Defined.

(* ------------------------------------------------------------------ *)
(** ** The update route *)

Lemma PUT_outcome (srv : Server) docId req now :
  (status (fst (PUT srv docId req now)) <> 200 /\
   db (snd (PUT srv docId req now)) = db srv /\
   (forall c, PUT_admits srv docId req now c -> db srv !! docId = None))
  \/
  (exists existing c,
     PUT_admits srv docId req now c /\
     db srv !! docId = Some existing /\
     status (fst (PUT srv docId req now)) = 200 /\
     db (snd (PUT srv docId req now)) = <[docId := with_content existing c]> (db srv)).
Proof.
  unfold PUT.
  destruct (str_truthy docId) eqn:Hid; cbn [negb].
  2: { left. repeat split; [simpl; lia|]. intros c [H _]. congruence. }
  destruct (checkRateLimit (requestLog srv) docId (js "update_document")
                           UPDATE_DOCUMENT now) as [r rl] eqn:Hc.
  destruct (success r) eqn:Hs; cbn [negb].
  2: { left. repeat split; [simpl; lia|]. intros c (_ & H & _).
       rewrite Hc in H. simpl in H. congruence. }
  destruct (req_body req) as [body|] eqn:Hb.
  2: { left. repeat split; [simpl; lia|]. intros c (_ & _ & body & v & H & _).
       congruence. }
  destruct (destructure body (js "encryptedContent")) as [e|v] eqn:Hd.
  { left. repeat split; [simpl; lia|]. intros c (_ & _ & body' & v & H & H' & _).
    rewrite Hb in H; injection H as <-. congruence. }
  destruct (valid_content v) as [c|] eqn:Hv.
  2: { left. repeat split; [simpl; lia|]. intros c (_ & _ & body' & v' & H & H' & H'' & _).
       rewrite Hb in H; injection H as <-. rewrite Hd in H'. injection H' as <-. congruence. }
  destruct (Z.ltb_spec MAX_CONTENT_LENGTH (Z.of_nat (length c))) as [Hlen|Hlen].
  { left. repeat split; [simpl; lia|]. intros c' (_ & _ & body' & v' & H & H' & H'' & H3).
    rewrite Hb in H; injection H as <-. rewrite Hd in H'. injection H' as <-.
    rewrite Hv in H''. injection H'' as <-. lia. }
  destruct (db srv !! docId) as [existing|] eqn:Hex.
  - right. exists existing, c. split; [|split; [reflexivity|split; reflexivity]].
    split; [exact Hid|]. split; [rewrite Hc; exact Hs|].
    exists body, v. auto.
  - left. split; [simpl; lia|]. split; [reflexivity|]. intros; reflexivity.
Qed.

Lemma PUT_admits_status (srv : Server) docId req now c :
  PUT_admits srv docId req now c ->
  status (fst (PUT srv docId req now)) =
    match db srv !! docId with Some _ => 200 | None => 404 end.
Proof.
  intros (Hid & Hs & body & v & Hb & Hd & Hv & Hlen).
  unfold PUT. rewrite Hid. cbn [negb].
  destruct (checkRateLimit (requestLog srv) docId (js "update_document")
                           UPDATE_DOCUMENT now) as [r rl] eqn:Hc.
  simpl in Hs. rewrite Hs. cbn [negb]. rewrite Hb, Hd, Hv.
  destruct (Z.ltb_spec MAX_CONTENT_LENGTH (Z.of_nat (length c))); [lia|].
  destruct (db srv !! docId); reflexivity.
Qed.

(** C9 (as amended): a [PUT] that answers 200 found the record and
    replaced only its [encryptedContent] with the request's content,
    keeping [id], [createdAt] and [writeTokenHash], and left every other
    record as it was; any other answer leaves the table unchanged; on an
    absent id the table is unchanged, the answer is 404 once the call
    passes the rate limit and the content checks, and otherwise it is one of
    400, 413, 429 and 500 (500 for a body that is not JSON or is null). *)
Theorem PUT_frame (srv : Server) docId req now :
  (status (fst (PUT srv docId req now)) = 200 ->
     exists existing c,
       PUT_admits srv docId req now c /\
       db srv !! docId = Some existing /\
       db (snd (PUT srv docId req now)) !! docId = Some (with_content existing c) /\
       id (with_content existing c) = id existing /\
       createdAt (with_content existing c) = createdAt existing /\
       writeTokenHash (with_content existing c) = writeTokenHash existing /\
       encryptedContent (with_content existing c) = c /\
       (forall k, k <> docId -> db (snd (PUT srv docId req now)) !! k = db srv !! k)) /\
  (status (fst (PUT srv docId req now)) <> 200 ->
     db (snd (PUT srv docId req now)) = db srv) /\
  (db srv !! docId = None ->
     db (snd (PUT srv docId req now)) = db srv /\
     (forall c, PUT_admits srv docId req now c ->
                status (fst (PUT srv docId req now)) = 404) /\
     In (status (fst (PUT srv docId req now))) [400; 404; 413; 429; 500]).
Proof.
  assert (Hin : db srv !! docId = None ->
                In (status (fst (PUT srv docId req now))) [400; 404; 413; 429; 500]).
  { intros Habs. unfold PUT. destruct (negb (str_truthy docId)); [cbn; lia|].
    destruct (checkRateLimit _ _ _ _ _) as [r rl].
    destruct (negb (success r)); [cbn; lia|].
    destruct (req_body req) as [body|]; [|cbn; lia].
    destruct (destructure body _) as [u|v]; [cbn; lia|].
    destruct (valid_content v); [|cbn; lia].
    destruct (_ <? _); [cbn; lia|]. rewrite Habs. cbn; lia. }
  destruct (PUT_outcome srv docId req now)
    as [(Hst & Hdb & Hnone) | (existing & c & Hadm & Hex & Hst & Hdb)].
  - split; [intros; contradiction|]. split; [intros; exact Hdb|].
    intros Habs. split; [exact Hdb|]. split; [|exact (Hin Habs)].
    intros c Hadm. rewrite (PUT_admits_status srv docId req now c Hadm), Habs.
    reflexivity.
  - split.
    + intros _. exists existing, c.
      split; [exact Hadm|]. split; [exact Hex|].
      rewrite Hdb. split; [apply lookup_insert_eq|].
      repeat split; try reflexivity.
      intros k Hk. apply lookup_insert_ne. congruence.
    + split; [rewrite Hst; congruence|]. intros Habs. congruence.
Qed.

Lemma PUT_frame_witness :
  PUT_admits empty_server (js "d1") (json_request [(js "encryptedContent", JStr (js "abc"))]) 0
    (js "abc") /\
  status (fst (PUT empty_server (js "d1")
                 (json_request [(js "encryptedContent", JStr (js "abc"))]) 0)) = 404 /\
  In (status (fst (PUT empty_server (js "d1")
                     {| req_headers := []; req_body := Some JNull |} 0)))
     [400; 404; 413; 429; 500] /\
  status (fst (PUT empty_server (js "d1")
                 {| req_headers := []; req_body := Some JNull |} 0)) = 500 /\
  status (fst (PUT server_two_docs (js "d1")
                 (json_request [(js "encryptedContent", JStr (js "new"))]) 7)) = 200 /\
  (exists existing c,
     PUT_admits server_two_docs (js "d1")
       (json_request [(js "encryptedContent", JStr (js "new"))]) 7 c /\
     db server_two_docs !! js "d1" = Some existing /\
     db (snd (PUT server_two_docs (js "d1")
                (json_request [(js "encryptedContent", JStr (js "new"))]) 7)) !! js "d1"
       = Some (with_content existing c) /\
     id (with_content existing c) = id existing /\
     createdAt (with_content existing c) = createdAt existing /\
     writeTokenHash (with_content existing c) = writeTokenHash existing /\
     encryptedContent (with_content existing c) = c /\
     (forall k, k <> js "d1" ->
        db (snd (PUT server_two_docs (js "d1")
                   (json_request [(js "encryptedContent", JStr (js "new"))]) 7)) !! k
        = db server_two_docs !! k)).
Proof.
  assert (H : PUT_admits empty_server (js "d1")
                (json_request [(js "encryptedContent", JStr (js "abc"))]) 0 (js "abc")).
  { split; [reflexivity|]. split; [reflexivity|].
    eexists _, _. split; [reflexivity|]. split; [reflexivity|].
    split; [reflexivity|]. simpl. unfold MAX_CONTENT_LENGTH. lia. }
  assert (H200 : status (fst (PUT server_two_docs (js "d1")
                   (json_request [(js "encryptedContent", JStr (js "new"))]) 7)) = 200)
    by (vm_compute; reflexivity).
  split; [exact H|]. split.
  - exact (proj1 (proj2 (proj2 (proj2 (PUT_frame empty_server (js "d1")
             (json_request [(js "encryptedContent", JStr (js "abc"))]) 0)) eq_refl))
             (js "abc") H).
  - split.
    { exact (proj2 (proj2 (proj2 (proj2 (PUT_frame empty_server (js "d1")
               {| req_headers := []; req_body := Some JNull |} 0)) eq_refl))). }
    split; [vm_compute; reflexivity|].
    split; [exact H200|].
    exact (proj1 (PUT_frame server_two_docs (js "d1")
             (json_request [(js "encryptedContent", JStr (js "new"))]) 7) H200).
Defined.

(** C9 fails as stated: an update of an absent id with empty content is
    rejected with 400 by the content check, not with NotFound. *)
Lemma PUT_absent_id_empty_content_is_400 :
  empty_server.(db) !! js "d1" = None /\
  status (fst (PUT empty_server (js "d1")
                 (json_request [(js "encryptedContent", JStr [])]) 0)) = 400.
Proof. split; reflexivity. Qed.

(* ------------------------------------------------------------------ *)
(** ** Content validation on create and update *)

(** [valid_content] rejects exactly the missing, empty and non-string
    values of [encryptedContent]. *)
Lemma valid_content_None (v : option json) :
  valid_content v = None <->
  v = None \/ v = Some (JStr []) \/ (exists j, v = Some j /\ forall s, j <> JStr s).
Proof.
  split.
  - destruct v as [j|]; [|auto]. destruct j as [| | |s| |]; simpl; intros H;
      try (right; right; eexists; split; [reflexivity|]; intros s' Hs'; discriminate).
    destruct s; [auto|discriminate].
  - intros [->|[->|(j & -> & Hj)]]; [reflexivity|reflexivity|].
    destruct j; try reflexivity. exfalso. eapply Hj. reflexivity.
Qed.

(** C4 (as amended): once a create or update request is admitted by the
    rate limiter and its body is a JSON value other than [null]
    (destructuring succeeds with value [v]), a missing, empty or non-string
    [encryptedContent] gives 400, a string longer than 10 MiB
    ([10 * 1024 * 1024] code units) gives 413, and content within the limit
    passes both checks: create goes on to insert (201 for a fresh id),
    update to the existence check (200 or 404). *)
Theorem content_checks :
  (forall (srv : Server) req newId now body v,
     success (fst (checkRateLimit (requestLog srv) (getClientIp (req_headers req))
                     (js "create_document") CREATE_DOCUMENT now)) = true ->
     req_body req = Some body ->
     destructure body (js "encryptedContent") = inr v ->
     status (fst (POST srv req newId now)) =
       match valid_content v with
       | None => 400
       | Some c =>
           if MAX_CONTENT_LENGTH <? Z.of_nat (length c) then 413
           else match db srv !! newId with None => 201 | Some _ => 500 end
       end) /\
  (forall (srv : Server) docId req now body v,
     str_truthy docId = true ->
     success (fst (checkRateLimit (requestLog srv) docId
                     (js "update_document") UPDATE_DOCUMENT now)) = true ->
     req_body req = Some body ->
     destructure body (js "encryptedContent") = inr v ->
     status (fst (PUT srv docId req now)) =
       match valid_content v with
       | None => 400
       | Some c =>
           if MAX_CONTENT_LENGTH <? Z.of_nat (length c) then 413
           else match db srv !! docId with Some _ => 200 | None => 404 end
       end) /\
  (forall v : option json, valid_content v = None <->
     v = None \/ v = Some (JStr []) \/ (exists j, v = Some j /\ forall s, j <> JStr s)) /\
  MAX_CONTENT_LENGTH = 10 * 1024 * 1024.
Proof.
  split; [|split; [|split; [exact valid_content_None|reflexivity]]].
  - intros srv req newId now body v Hs Hb Hd. unfold POST.
    destruct (checkRateLimit (requestLog srv) (getClientIp (req_headers req))
                (js "create_document") CREATE_DOCUMENT now) as [r rl].
    simpl in Hs. rewrite Hs. cbn [negb]. rewrite Hb, Hd.
    destruct (valid_content v) as [c|]; [|reflexivity].
    destruct (MAX_CONTENT_LENGTH <? Z.of_nat (length c)); [reflexivity|].
    destruct (db srv !! newId); reflexivity.
  - intros srv docId req now body v Hid Hs Hb Hd. unfold PUT. rewrite Hid. cbn [negb].
    destruct (checkRateLimit (requestLog srv) docId
                (js "update_document") UPDATE_DOCUMENT now) as [r rl].
    simpl in Hs. rewrite Hs. cbn [negb]. rewrite Hb, Hd.
    destruct (valid_content v) as [c|]; [|reflexivity].
    destruct (MAX_CONTENT_LENGTH <? Z.of_nat (length c)); [reflexivity|].
    destruct (db srv !! docId); reflexivity.
Qed.

Lemma content_checks_witness :
  status (fst (POST empty_server (json_request [(js "encryptedContent", JStr [])])
                 (js "d1") 0)) = 400 /\
  status (fst (PUT empty_server (js "d1") (json_request [(js "encryptedContent", JNum 7)])
                 0)) = 400.
Proof.
  split.
  - exact (eq_trans (proj1 content_checks empty_server
             (json_request [(js "encryptedContent", JStr [])]) (js "d1") 0
             (JObj [(js "encryptedContent", JStr [])]) (Some (JStr []))
             eq_refl eq_refl eq_refl) eq_refl).
  - exact (eq_trans (proj1 (proj2 content_checks) empty_server (js "d1")
             (json_request [(js "encryptedContent", JNum 7)]) 0
             (JObj [(js "encryptedContent", JNum 7)]) (Some (JNum 7))
             eq_refl eq_refl eq_refl eq_refl) eq_refl).
Defined.

(** C4 fails as stated: the rate limit is checked before the body, so a
    create request with no [encryptedContent] from a client whose window
    is exhausted gets 429, not 400. *)
Lemma POST_rate_limit_precedes_validation :
  let srv := {| db := ∅;
                requestLog := {[ rl_key (js "unknown") (js "create_document") :=
                                   {| count := 10; resetTime := 100 |} ]} |} in
  status (fst (POST srv (json_request []) (js "d1") 0)) = 429.
Proof. reflexivity. Qed.

(* ------------------------------------------------------------------ *)
(** ** Write tokens on the server *)

(** [PUT] never looks at a [writeToken] field: adding one to the body
    changes nothing. *)
Lemma PUT_ignores_writeToken (srv : Server) docId hs fields tok now :
  PUT srv docId {| req_headers := hs;
                   req_body := Some (JObj (fields ++ [(js "writeToken", tok)])) |} now =
  PUT srv docId {| req_headers := hs; req_body := Some (JObj fields) |} now.
Proof.
  unfold PUT, destructure. cbn [req_body]. rewrite foldl_app. simpl.
  destruct (decide (js "writeToken" = js "encryptedContent")) as [H|H];
    [discriminate H | reflexivity].
Qed.

(** [POST] always stores a NULL [write_token_hash]. *)
Lemma POST_stores_no_writeTokenHash (srv : Server) req newId now d :
  db (snd (POST srv req newId now)) !! newId = Some d ->
  db srv !! newId = None ->
  writeTokenHash d = None.
Proof.
  intros Hd Hfresh. unfold POST in Hd.
  destruct (checkRateLimit (requestLog srv) (getClientIp (req_headers req))
              (js "create_document") CREATE_DOCUMENT now) as [r rl].
  destruct (negb (success r)); [simpl in Hd; congruence|].
  destruct (req_body req) as [body|]; [|simpl in Hd; congruence].
  destruct (destructure body (js "encryptedContent")) as [_|v]; [simpl in Hd; congruence|].
  destruct (valid_content v) as [c|]; [|simpl in Hd; congruence].
  destruct (MAX_CONTENT_LENGTH <? Z.of_nat (length c)); [simpl in Hd; congruence|].
  rewrite Hfresh in Hd. simpl in Hd. rewrite lookup_insert_eq in Hd.
  injection Hd as <-. reflexivity.
Qed.

(** C1 (code_bug): on a record that has a [writeTokenHash], an update
    with no [writeToken], and one with a wrong [writeToken], both succeed
    with 200 and overwrite the content. *)
Theorem PUT_without_token_on_protected_doc :
  status (fst (PUT server_with_hash (js "d1")
                 (json_request [(js "encryptedContent", JStr (js "new"))]) 0)) = 200 /\
  db (snd (PUT server_with_hash (js "d1")
             (json_request [(js "encryptedContent", JStr (js "new"))]) 0)) !! js "d1" =
    Some (with_content stored_doc_with_hash (js "new")) /\
  status (fst (PUT server_with_hash (js "d1")
                 (json_request [(js "encryptedContent", JStr (js "new"));
                                (js "writeToken", JStr (js "wrong"))]) 0)) = 200.
Proof. split; [reflexivity|]. split; [reflexivity|]. reflexivity. Qed.

(** C2 (code_bug): a create whose body carries a [writeTokenHash] answers
    201 but persists the record with a NULL [writeTokenHash]. *)
Theorem POST_drops_writeTokenHash :
  let req := json_request [(js "encryptedContent", JStr (js "abc"));
                           (js "writeTokenHash", JStr (js "h"))] in
  status (fst (POST empty_server req (js "d1") 0)) = 201 /\
  db (snd (POST empty_server req (js "d1") 0)) !! js "d1" =
    Some {| id := js "d1"; encryptedContent := js "abc"; writeTokenHash := None;
            createdAt := 0 |}.
Proof. split; reflexivity. Qed.

(* ------------------------------------------------------------------ *)
(** ** Client identifier for per-IP limits *)

(** C10 (as amended): [getClientIp] returns the trimmed first
    comma-separated entry of [X-Forwarded-For] when that header is present
    and non-empty, otherwise the trimmed [X-Real-IP] when present and
    non-empty, otherwise ["unknown"]; so create and read requests with
    neither header (or only empty ones) all count against the limiter keys
    ["unknown:create_document"] and ["unknown:get_document"]. *)
Theorem getClientIp_spec :
  (forall (h : Headers) ff, headers_get h (js "x-forwarded-for") = Some ff -> ff <> [] ->
     getClientIp h = trim (nth_piece (split_on 44 ff) 0)) /\
  (forall (h : Headers) ri,
     headers_get h (js "x-forwarded-for") = None \/
       headers_get h (js "x-forwarded-for") = Some [] ->
     headers_get h (js "x-real-ip") = Some ri -> ri <> [] ->
     getClientIp h = trim ri) /\
  (forall (h : Headers),
     opt_truthy (headers_get h (js "x-forwarded-for")) = false ->
     opt_truthy (headers_get h (js "x-real-ip")) = false ->
     getClientIp h = js "unknown" /\
     (forall srv body newId now,
        requestLog (snd (POST srv {| req_headers := h; req_body := body |} newId now)) =
        snd (checkRateLimit (requestLog srv) (js "unknown") (js "create_document")
               CREATE_DOCUMENT now)) /\
     (forall srv docId now,
        str_truthy docId = true ->
        requestLog (snd (GET srv docId {| req_headers := h; req_body := None |} now)) =
        snd (checkRateLimit (requestLog srv) (js "unknown") (js "get_document")
               GET_DOCUMENT now))).
Proof.
  split; [|split].
  - intros h ff Hff Hne. unfold getClientIp. rewrite Hff.
    destruct ff; [congruence|reflexivity].
  - intros h ri Hff Hri Hne. unfold getClientIp.
    destruct Hff as [Hff|Hff]; rewrite Hff; cbn [opt_truthy str_truthy]; rewrite Hri;
      destruct ri; (congruence || reflexivity).
  - intros h Hff Hri.
    assert (Hip : getClientIp h = js "unknown").
    { unfold getClientIp. rewrite Hff, Hri. reflexivity. }
    split; [exact Hip|]. split.
    + intros srv body newId now. unfold POST. cbn [req_headers]. rewrite Hip.
      destruct (checkRateLimit (requestLog srv) (js "unknown") (js "create_document")
                  CREATE_DOCUMENT now) as [r rl].
      destruct (negb (success r)); [reflexivity|].
      cbn [req_body]. destruct body as [b|]; [|reflexivity].
      destruct (destructure b (js "encryptedContent")) as [_|v]; [reflexivity|].
      destruct (valid_content v) as [c|]; [|reflexivity].
      destruct (MAX_CONTENT_LENGTH <? Z.of_nat (length c)); [reflexivity|].
      destruct (db srv !! newId); reflexivity.
    + intros srv docId now Hid. unfold GET. rewrite Hid. cbn [negb req_headers].
      rewrite Hip.
      destruct (checkRateLimit (requestLog srv) (js "unknown") (js "get_document")
                  GET_DOCUMENT now) as [r rl].
      destruct (negb (success r)); [reflexivity|].
      destruct (db srv !! docId); reflexivity.
Qed.

Lemma getClientIp_spec_witness :
  getClientIp [(js "x-forwarded-for", js " 1.2.3.4 , 5.6.7.8")] = js "1.2.3.4" /\
  getClientIp [] = js "unknown".
Proof.
  split.
  - exact (eq_trans (proj1 getClientIp_spec
                       [(js "x-forwarded-for", js " 1.2.3.4 , 5.6.7.8")]
                       (js " 1.2.3.4 , 5.6.7.8") eq_refl
                       ltac:(discriminate)) eq_refl).
  - exact (proj1 (proj2 (proj2 getClientIp_spec) [] eq_refl eq_refl)).
Defined.

(** C10 fails as stated: an [X-Forwarded-For] header that is present but
    empty is skipped (the code tests its truthiness), so the [X-Real-IP]
    value is used instead of the header's (empty) first entry. *)
Lemma getClientIp_empty_forwarded_for :
  let h : Headers := [(js "x-forwarded-for", []); (js "x-real-ip", js "10.0.0.1")] in
  headers_get h (js "x-forwarded-for") = Some [] /\
  trim (nth_piece (split_on 44 []) 0) = [] /\
  getClientIp h = js "10.0.0.1".
Proof. split; [reflexivity|]. split; reflexivity. Qed.

Example b64_example :
  arrayBufferToBase64 [251; 255; 0; 1] = Some (js "-_8AAQ") /\
  base64ToArrayBuffer (js "-_8AAQ") = Some [251; 255; 0; 1].
Proof. split; reflexivity. Qed.

Example utf_example :
  TextEncoder_encode [104; 233; 8364; 55357; 56832] =
    [104; 195; 169; 226; 130; 172; 240; 159; 152; 128] /\
  TextDecoder_decode [104; 195; 169; 226; 130; 172; 240; 159; 152; 128] =
    [104; 233; 8364; 55357; 56832] /\
  TextDecoder_decode [239; 187; 191; 104] = [104] /\
  TextDecoder_decode [255; 104; 226; 130] = [65533; 104; 65533].
Proof. repeat split; reflexivity. Qed.

Example load_example :
  loadFromUrl (capability_fragment (js "ab12") (js "K-y_") (js "T0k")) =
    LoadDocument (js "ab12") (js "K-y_") (Some (js "T0k")) /\
  loadFromUrl (capability_fragment (js "ab12") (js "K-y_") []) =
    LoadDocument (js "ab12") (js "K-y_") None /\
  loadFromUrl (js "ab12") = InvalidFormat.
Proof. repeat split; reflexivity. Qed.

(* ------------------------------------------------------------------ *)
(** ** Capability fragments *)

Lemma url_safe_char c :
  is_url_safe c = true ->
  0 <= c < 128 /\ c <> 35 /\ c <> 37 /\ c <> 38 /\ c <> 43 /\ c <> 61 /\ c <> 63.
Proof.
  unfold is_url_safe. intros H.
  repeat rewrite orb_true_iff in H. repeat rewrite andb_true_iff in H.
  repeat rewrite Z.leb_le in H. repeat rewrite Z.eqb_eq in H. lia.
Qed.

Lemma split_on_none c (s : jsstr) : ~ In c s -> split_on c s = [s].
Proof.
  induction s as [|x r IH]; intros Hn; [reflexivity|]. simpl.
  destruct (Z.eqb_spec x c) as [->|Hx]; [exfalso; apply Hn; left; reflexivity|].
  rewrite IH; [reflexivity|]. intros Hin. apply Hn. right. exact Hin.
Qed.

Lemma split_on_app c (a b : jsstr) :
  ~ In c a -> split_on c (a ++ c :: b) = a :: split_on c b.
Proof.
  induction a as [|x r IH]; intros Hn; simpl.
  - rewrite Z.eqb_refl. reflexivity.
  - destruct (Z.eqb_spec x c) as [->|Hx]; [exfalso; apply Hn; left; reflexivity|].
    rewrite IH; [reflexivity|]. intros Hin. apply Hn. right. exact Hin.
Qed.

Lemma break_at_none c (s : list Z) : ~ In c s -> break_at c s = (s, []).
Proof.
  induction s as [|x r IH]; intros Hn; [reflexivity|]. simpl.
  destruct (Z.eqb_spec x c) as [->|Hx]; [exfalso; apply Hn; left; reflexivity|].
  rewrite IH; [reflexivity|]. intros Hin. apply Hn. right. exact Hin.
Qed.

Lemma not_in_of_forall (P : Z -> Prop) c (s : list Z) :
  Forall P s -> (forall x, P x -> x <> c) -> ~ In c s.
Proof.
  intros HF Hc Hin. rewrite List.Forall_forall in HF.
  exact (Hc c (HF c Hin) eq_refl).
Qed.

Lemma code_points_ascii (s : jsstr) :
  Forall (fun c => 0 <= c < 128) s -> code_points s = s.
Proof.
  induction s as [|u r IH]; intros HF; [reflexivity|].
  inversion HF as [|? ? Hu Hr]; subst. simpl.
  unfold is_lead, is_trail.
  destruct (Z.leb_spec 55296 u); [lia|]. destruct (Z.leb_spec 56320 u); [lia|].
  simpl. rewrite IH; auto.
Qed.

Lemma TextEncoder_encode_ascii (s : jsstr) :
  Forall (fun c => 0 <= c < 128) s -> TextEncoder_encode s = s.
Proof.
  intros HF. unfold TextEncoder_encode. rewrite code_points_ascii by exact HF.
  induction HF as [|x r Hx Hr IH]; [reflexivity|]. cbn [flat_map].
  unfold utf8_encode_cp at 1. destruct (Z.ltb_spec x 128); [|lia].
  rewrite IH. reflexivity.
Qed.

Lemma utf8_step_init b : utf8_step utf8_init b = utf8_start b.
Proof. reflexivity. Qed.

Lemma utf8_decode_ascii (bs : list Z) :
  Forall (fun c => 0 <= c < 128) bs -> utf8_decode_from utf8_init bs = bs.
Proof.
  induction 1 as [|x r Hx Hr IH]; [reflexivity|]. cbn [utf8_decode_from].
  rewrite utf8_step_init. unfold utf8_start.
  destruct (Z.leb_spec x 127); [|lia]. cbn [fst snd app].
  rewrite IH. reflexivity.
Qed.

Lemma flat_map_utf16_bmp (cs : list Z) :
  Forall (fun c => 0 <= c < 65536) cs -> flat_map utf16_of_cp cs = cs.
Proof.
  induction 1 as [|x r Hx Hr IH]; [reflexivity|]. cbn [flat_map].
  unfold utf16_of_cp at 1. destruct (Z.ltb_spec x 65536); [|lia].
  rewrite IH. reflexivity.
Qed.

Lemma form_component_url_safe (s : jsstr) : url_safe s -> form_component s = s.
Proof.
  intros Hs.
  assert (Ha : Forall (fun c => 0 <= c < 128 /\ c <> 37 /\ c <> 43) s).
  { eapply Forall_impl; [exact Hs|]. intros c Hc.
    destruct (url_safe_char c Hc) as (? & ? & ? & ? & ? & ?). lia. }
  unfold form_component, utf8_decode_without_bom.
  assert (Hr : replace_unit 43 32 s = s).
  { clear Hs. induction Ha as [|x r Hx Hr IH]; [reflexivity|]. simpl.
    destruct (Z.eqb_spec x 43); [lia|]. rewrite IH. reflexivity. }
  assert (Hp : percent_decode s = s).
  { clear Hs Hr. induction Ha as [|x r Hx Hr IH]; [reflexivity|]. simpl.
    destruct (Z.eqb_spec x 37); [lia|]. rewrite IH. reflexivity. }
  assert (H1 : Forall (fun c => 0 <= c < 128) s).
  { eapply Forall_impl; [exact Ha|]. intros c Hc. cbv beta in *. lia. }
  assert (H2 : Forall (fun c => 0 <= c < 65536) s).
  { eapply Forall_impl; [exact Ha|]. intros c Hc. cbv beta in *. lia. }
  rewrite Hr, Hp, (utf8_decode_ascii s H1), (flat_map_utf16_bmp s H2).
  reflexivity.
Qed.

Lemma url_safe_ascii (s : jsstr) : url_safe s -> Forall (fun c => 0 <= c < 128) s.
Proof.
  intros Hs. eapply Forall_impl; [exact Hs|]. intros c Hc.
  apply (url_safe_char c Hc).
Qed.

Lemma url_safe_not_in (s : jsstr) c :
  url_safe s -> c = 35 \/ c = 37 \/ c = 38 \/ c = 43 \/ c = 61 \/ c = 63 -> ~ In c s.
Proof.
  intros Hs Hc. eapply not_in_of_forall; [exact Hs|].
  intros x Hx. destruct (url_safe_char x Hx) as (? & ? & ? & ? & ? & ? & ?). lia.
Qed.

Lemma loadFromUrl_nonempty (hash : jsstr) :
  hash <> [] ->
  loadFromUrl hash =
    let parts := split_on 35 hash in
    if (length parts <? 2)%nat then InvalidFormat
    else LoadDocument (nth_piece parts 0) (fst (parse_key_token (nth_piece parts 1)))
                      (snd (parse_key_token (nth_piece parts 1))).
Proof. destruct hash; [congruence|reflexivity]. Qed.

Lemma urlencoded_parse_key (key : jsstr) :
  url_safe key ->
  urlencoded_parse key = match key with [] => [] | _ => [(key, [])] end.
Proof.
  intros Hk. unfold urlencoded_parse.
  rewrite (TextEncoder_encode_ascii key (url_safe_ascii key Hk)).
  rewrite (split_on_none 38 key (url_safe_not_in key 38 Hk ltac:(lia))).
  cbn [flat_map]. rewrite app_nil_r.
  destruct key as [|c r]; [reflexivity|].
  rewrite (break_at_none 61 (c :: r) (url_safe_not_in (c :: r) 61 Hk ltac:(lia))).
  cbn [fst snd]. rewrite (form_component_url_safe (c :: r) Hk). reflexivity.
Qed.

Lemma urlencoded_parse_key_token (key tok : jsstr) :
  url_safe key -> url_safe tok ->
  urlencoded_parse (key ++ js "&write=" ++ tok) =
    match key with [] => [] | _ => [(key, [])] end ++ [(js "write", tok)].
Proof.
  intros Hk Ht. unfold urlencoded_parse.
  rewrite TextEncoder_encode_ascii.
  2: { apply Forall_app. split; [exact (url_safe_ascii key Hk)|].
       apply Forall_app. split; [repeat constructor; lia | exact (url_safe_ascii tok Ht)]. }
  change (js "&write=" ++ tok) with (38 :: (js "write=" ++ tok)).
  rewrite (split_on_app 38 key _ (url_safe_not_in key 38 Hk ltac:(lia))).
  rewrite (split_on_none 38 (js "write=" ++ tok)).
  2: { intros Hin. apply in_app_or in Hin as [Hin|Hin].
       - vm_compute in Hin. lia.
       - exact (url_safe_not_in tok 38 Ht ltac:(lia) Hin). }
  cbn [flat_map]. rewrite app_nil_r. f_equal.
  - destruct key as [|c r]; [reflexivity|].
    rewrite (break_at_none 61 (c :: r) (url_safe_not_in (c :: r) 61 Hk ltac:(lia))).
    cbn [fst snd]. rewrite (form_component_url_safe (c :: r) Hk). reflexivity.
  - cbn [js app break_at]. simpl (Z.eqb _ _). cbn [fst snd].
    rewrite (form_component_url_safe tok Ht). reflexivity.
Qed.

Lemma strip_question_mark (s : jsstr) :
  (forall c r, s = c :: r -> c <> 63) ->
  match s with c :: r => if c =? 63 then r else s | [] => [] end = s.
Proof.
  intros H. destruct s as [|c r]; [reflexivity|].
  destruct (Z.eqb_spec c 63) as [E|E]; [exfalso; exact (H c r eq_refl E)|reflexivity].
Qed.

Lemma url_safe_head (s : jsstr) : url_safe s -> forall c r, s = c :: r -> c <> 63.
Proof.
  intros Hs c r ->. inversion Hs as [|? ? Hc _]; subst.
  destruct (url_safe_char c Hc) as (_ & _ & _ & _ & _ & _ & H). exact H.
Qed.

Lemma parse_key_token_roundtrip (key tok : jsstr) :
  url_safe key -> url_safe tok -> key <> js "write" ->
  parse_key_token (if str_truthy tok then key ++ js "&write=" ++ tok else key) =
    (key, if str_truthy tok then Some tok else None).
Proof.
  intros Hk Ht Hw. unfold parse_key_token, URLSearchParams_get.
  destruct tok as [|t ts] eqn:Etok; cbn [str_truthy].
  - rewrite (strip_question_mark key (url_safe_head key Hk)).
    rewrite (urlencoded_parse_key key Hk).
    destruct key as [|c r]; [reflexivity|]. cbn [List.find fst].
    case_decide; [contradiction|reflexivity].
  - rewrite <- Etok. rewrite strip_question_mark.
    2: { intros c r E. destruct key as [|k ks].
         - change (js "&write=" ++ tok) with (38 :: (js "write=" ++ tok)) in E. injection E as <- _. lia.
         - injection E as <- _. exact (url_safe_head (k :: ks) Hk k ks eq_refl). }
    rewrite (urlencoded_parse_key_token key tok Hk ltac:(subst; exact Ht)).
    replace (split_on 38 (key ++ js "&write=" ++ tok))
      with (key :: split_on 38 (js "write=" ++ tok)).
    2: { change (js "&write=" ++ tok) with (38 :: (js "write=" ++ tok)).
         rewrite (split_on_app 38 key _ (url_safe_not_in key 38 Hk ltac:(lia))).
         reflexivity. }
    rewrite Etok.
    destruct key as [|c r]; cbn [app List.find fst]; repeat case_decide;
      try congruence; reflexivity.
Qed.

Lemma loadFromUrl_no_hash (hash : jsstr) :
  hash <> [] -> ~ In 35 hash -> loadFromUrl hash = InvalidFormat.
Proof.
  intros Hne Hn. rewrite (loadFromUrl_nonempty hash Hne). cbv zeta.
  rewrite (split_on_none 35 hash Hn). reflexivity.
Qed.

Lemma loadFromUrl_split (a b rest : jsstr) :
  ~ In 35 a -> ~ In 35 b -> (rest = [] \/ exists r, rest = 35 :: r) ->
  loadFromUrl (a ++ 35 :: b ++ rest) =
    LoadDocument a (fst (parse_key_token b)) (snd (parse_key_token b)).
Proof.
  intros Ha Hb Hr. rewrite loadFromUrl_nonempty by (destruct a; discriminate).
  cbv zeta. rewrite (split_on_app 35 a _ Ha).
  destruct Hr as [->|[r ->]].
  - rewrite app_nil_r, (split_on_none 35 b Hb). reflexivity.
  - rewrite (split_on_app 35 b _ Hb). reflexivity.
Qed.

(** C5 (amended): [loadFromUrl] splits the fragment on every ['#']: the
    identifier is the text before the first ['#'], the key and token come from
    the text between the first and the second ['#'] only; a non-empty fragment
    with no ['#'] is refused as [InvalidFormat]; and the fragment built by
    [capability_fragment] from URL-safe (base64url) id, key and token, with a
    key other than ["write"], loads back exactly that id, key and token (an
    empty token meaning no token). *)
Theorem loadFromUrl_spec (docId key tok : jsstr) :
  url_safe docId -> url_safe key -> url_safe tok -> key <> js "write" ->
  loadFromUrl (capability_fragment docId key tok) =
    LoadDocument docId key (if str_truthy tok then Some tok else None) /\
  (forall hash, hash <> [] -> ~ In 35 hash -> loadFromUrl hash = InvalidFormat) /\
  (forall a b rest, ~ In 35 a -> ~ In 35 b -> (rest = [] \/ exists r, rest = 35 :: r) ->
     loadFromUrl (a ++ 35 :: b ++ rest) =
       LoadDocument a (fst (parse_key_token b)) (snd (parse_key_token b))).
Proof.
  intros Hd Hk Ht Hw. split; [|split; [exact loadFromUrl_no_hash | exact loadFromUrl_split]].
  assert (Hb : ~ In 35 ((if str_truthy tok then key ++ js "&write=" ++ tok else key) : jsstr)).
  { destruct (str_truthy tok); [|exact (url_safe_not_in key 35 Hk ltac:(lia))].
    intros Hin. apply in_app_or in Hin as [Hin|Hin];
      [exact (url_safe_not_in key 35 Hk ltac:(lia) Hin)|].
    apply in_app_or in Hin as [Hin|Hin]; [vm_compute in Hin; lia|].
    exact (url_safe_not_in tok 35 Ht ltac:(lia) Hin). }
  pose proof (loadFromUrl_split docId _ [] (url_safe_not_in docId 35 Hd ltac:(lia)) Hb
                (or_introl eq_refl)) as E.
  rewrite app_nil_r in E.
  rewrite (parse_key_token_roundtrip key tok Hk Ht Hw) in E. cbn [fst snd] in E.
  rewrite <- E. unfold capability_fragment.
  destruct (str_truthy tok); reflexivity.
Qed.

Lemma loadFromUrl_spec_witness :
  url_safe (js "doc1") /\ url_safe (js "k-9_Z") /\ url_safe (js "t0k") /\
  js "k-9_Z" <> js "write" /\
  loadFromUrl (capability_fragment (js "doc1") (js "k-9_Z") (js "t0k")) =
    LoadDocument (js "doc1") (js "k-9_Z") (Some (js "t0k")).
Proof.
  assert (H1 : url_safe (js "doc1")) by (vm_compute; repeat constructor).
  assert (H2 : url_safe (js "k-9_Z")) by (vm_compute; repeat constructor).
  assert (H3 : url_safe (js "t0k")) by (vm_compute; repeat constructor).
  assert (H4 : js "k-9_Z" <> js "write") by (vm_compute; congruence).
  split; [exact H1|]. split; [exact H2|]. split; [exact H3|]. split; [exact H4|].
  exact (proj1 (loadFromUrl_spec (js "doc1") (js "k-9_Z") (js "t0k") H1 H2 H3 H4)).
Defined.

(** C5 counterexample: fragments with an empty identifier, an empty key, or a
    second ['#'] are not rejected; they load as documents with an empty id or
    key, and the text after a second ['#'] is dropped. *)
Lemma loadFromUrl_accepts_missing_parts :
  loadFromUrl (js "#k") = LoadDocument [] (js "k") None /\
  loadFromUrl (js "d#") = LoadDocument (js "d") [] None /\
  loadFromUrl (js "d#k#x") = LoadDocument (js "d") (js "k") None.
Proof. vm_compute. repeat split. Qed.

(* ------------------------------------------------------------------ *)
(** ** Base64 round trip *)

Lemma list_ind3 (P : list Z -> Prop) :
  P [] -> (forall a, P [a]) -> (forall a b, P [a; b]) ->
  (forall a b c r, P r -> P (a :: b :: c :: r)) -> forall l, P l.
Proof.
  intros H0 H1 H2 H3. fix IH 1. intros [|a [|b [|c r]]].
  - exact H0.
  - exact (H1 a).
  - exact (H2 a b).
  - exact (H3 a b c r (IH r)).
Qed.

Lemma list_ind4 (P : list Z -> Prop) :
  P [] -> (forall a, P [a]) -> (forall a b, P [a; b]) -> (forall a b c, P [a; b; c]) ->
  (forall a b c d r, P r -> P (a :: b :: c :: d :: r)) -> forall l, P l.
Proof.
  intros H0 H1 H2 H3 H4. fix IH 1. intros [|a [|b [|c [|d r]]]].
  - exact H0.
  - exact (H1 a).
  - exact (H2 a b).
  - exact (H3 a b c).
  - exact (H4 a b c d r (IH r)).
Qed.

Lemma b64_sextets_range (bs : list Z) :
  Forall is_byte bs -> Forall (fun x => 0 <= x < 64) (b64_sextets bs).
Proof.
  induction bs as [|a|a b|a b c r IH] using list_ind3; intros H; forall_inv;
    unfold is_byte in *; simpl; repeat constructor; try zlia.
  - apply IH. assumption.
Qed.

Lemma b64_bytes_sextets (bs : list Z) :
  Forall is_byte bs -> b64_bytes (b64_sextets bs) = bs.
Proof.
  induction bs as [|a|a b|a b c r IH] using list_ind3; intros H; forall_inv;
    unfold is_byte in *; simpl; repeat f_equal; try zlia.
  apply IH. assumption.
Qed.

Lemma b64_sextets_length (bs : list Z) :
  (length (b64_sextets bs) mod 4 <> 1)%nat.
Proof.
  induction bs as [|a|a b|a b c r IH] using list_ind3; cbn [b64_sextets length]; try nlia.
Qed.

Lemma b64_sextets_length3 (bs : list Z) :
  (length bs mod 3 = 0)%nat -> (length (b64_sextets bs) mod 4 = 0)%nat.
Proof.
  induction bs as [|a|a b|a b c r IH] using list_ind3; cbn [b64_sextets length app]; intros H; try nlia.
Qed.

Lemma b64_sextets_app (front rest : list Z) :
  (length front mod 3 = 0)%nat ->
  b64_sextets (front ++ rest) = b64_sextets front ++ b64_sextets rest.
Proof.
  induction front as [|a|a b|a b c r IH] using list_ind3; cbn [b64_sextets length app]; intros H; try nlia.
  - reflexivity.
  - rewrite IH by nlia. reflexivity.
Qed.

Lemma b64_bytes_app (xs ys : list Z) :
  (length xs mod 4 = 0)%nat -> b64_bytes (xs ++ ys) = b64_bytes xs ++ b64_bytes ys.
Proof.
  induction xs as [|a|a b|a b c|a b c d r IH] using list_ind4; cbn [b64_bytes length app]; intros H; try nlia.
  - reflexivity.
  - rewrite IH by nlia. reflexivity.
Qed.

Lemma b64_index_char (i : Z) : 0 <= i < 64 -> b64_index (b64_char i) = Some i.
Proof. intros Hi. unfold b64_index, b64_char. zcase; try lia; f_equal; lia. Qed.

Lemma b64_char_props (i : Z) :
  0 <= i < 64 ->
  b64_char i <> 45 /\ b64_char i <> 95 /\ b64_char i <> 61 /\
  is_ascii_ws (b64_char i) = false.
Proof.
  intros Hi. unfold is_ascii_ws, b64_char. zcase; repeat split; try lia; reflexivity.
Qed.

Lemma b64_indices_map (sx : list Z) :
  Forall (fun x => 0 <= x < 64) sx -> b64_indices (map b64_char sx) = Some sx.
Proof.
  induction 1 as [|x r Hx _ IH]; [reflexivity|]. simpl.
  rewrite (b64_index_char x Hx), IH. reflexivity.
Qed.

Lemma replace_url_roundtrip (X : jsstr) :
  Forall (fun c => c <> 45 /\ c <> 95) X ->
  replace_unit 95 47 (replace_unit 45 43 (replace_unit 47 95 (replace_unit 43 45 X))) = X.
Proof.
  induction 1 as [|x r [H45 H95] _ IH]; [reflexivity|].
  unfold replace_unit in *. cbn [map]. rewrite IH. f_equal.
  destruct (Z.eqb_spec x 43) as [->|]; [reflexivity|]. simpl.
  destruct (Z.eqb_spec x 47) as [->|]; [reflexivity|]. simpl.
  destruct (Z.eqb_spec x 45); [lia|]. destruct (Z.eqb_spec x 95); [lia|]. reflexivity.
Qed.

Lemma filter_all {A} (f : A -> bool) (l : list A) :
  (forall x, In x l -> f x = true) -> List.filter f l = l.
Proof.
  induction l as [|x r IH]; intros H; [reflexivity|]. simpl.
  rewrite (H x (or_introl eq_refl)), IH; [reflexivity|].
  intros y Hy. apply H. right. exact Hy.
Qed.

Lemma strip_padding_pad (X : jsstr) (p : nat) :
  ~ In 61 X -> (p <= 2)%nat -> ((length X + p) mod 4 = 0)%nat ->
  strip_padding (X ++ repeat 61 p) = X.
Proof.
  intros HX Hp Hl. unfold strip_padding.
  rewrite length_app, repeat_length, Hl. cbn [Nat.eqb].
  rewrite rev_app_distr, rev_repeat.
  assert (Hr : X = rev (rev X)) by (rewrite rev_involutive; reflexivity).
  assert (Hn : forall a, In a (rev X) -> a <> 61).
  { intros a Ha E. subst a. apply HX. apply in_rev. exact Ha. }
  destruct p as [|[|[|p]]]; [| | |lia]; cbn [repeat app].
  - rewrite app_nil_r.
    destruct (rev X) as [|a [|b r]] eqn:E; [reflexivity| |].
    + destruct (Z.eqb_spec a 61); [exfalso; apply (Hn a); [left|]; auto|reflexivity].
    + destruct (Z.eqb_spec a 61); [exfalso; apply (Hn a); [left|]; auto|reflexivity].
  - destruct (rev X) as [|b r] eqn:E.
    + cbn. symmetry. exact Hr.
    + cbn [Z.eqb Pos.eqb andb].
      destruct (Z.eqb_spec b 61); [exfalso; apply (Hn b); [left|]; auto|].
      cbn [andb]. symmetry. exact Hr.
  - cbn. symmetry. exact Hr.
Qed.

Lemma base64ToArrayBuffer_sextets (sx : list Z) :
  Forall (fun x => 0 <= x < 64) sx -> (length sx mod 4 <> 1)%nat ->
  base64ToArrayBuffer (replace_unit 47 95 (replace_unit 43 45 (map b64_char sx))) =
    Some (b64_bytes sx).
Proof.
  intros Hr Hl. unfold base64ToArrayBuffer. cbv zeta.
  assert (Hc : forall c, In c (map b64_char sx) ->
                 c <> 45 /\ c <> 95 /\ c <> 61 /\ is_ascii_ws c = false).
  { intros c Hc. apply in_map_iff in Hc as (x & <- & Hx).
    apply b64_char_props. exact (proj1 (List.Forall_forall _ _) Hr x Hx). }
  rewrite replace_url_roundtrip.
  2: { apply List.Forall_forall. intros c Hin. destruct (Hc c Hin) as (? & ? & _). auto. }
  unfold atob. rewrite List.filter_app, filter_all, filter_all.
  2: { intros x Hx. apply repeat_spec in Hx. subst x. reflexivity. }
  2: { intros x Hx. destruct (Hc x Hx) as (_ & _ & _ & ->). reflexivity. }
  rewrite length_map, strip_padding_pad.
  - rewrite length_map. destruct (Nat.eqb_spec (length sx mod 4) 1); [contradiction|].
    rewrite (b64_indices_map sx Hr). reflexivity.
  - intros Hin. destruct (Hc 61 Hin) as (_ & _ & H & _). contradiction.
  - nlia.
  - rewrite length_map. nlia.
Qed.

Lemma arrayBufferToBase64_bytes (bs : list Z) :
  Forall is_byte bs ->
  arrayBufferToBase64 bs =
    Some (replace_unit 47 95 (replace_unit 43 45 (map b64_char (b64_sextets bs)))).
Proof.
  intros Hb. unfold arrayBufferToBase64, btoa.
  replace (forallb (fun u => (0 <=? u) && (u <=? 255)) bs) with true.
  2: { symmetry. apply forallb_forall. intros x Hx.
       pose proof (proj1 (List.Forall_forall _ _) Hb x Hx) as Hx'. unfold is_byte in Hx'.
       apply andb_true_iff. split; apply Z.leb_le; lia. }
  f_equal. unfold remove_unit, replace_unit. rewrite !map_app, List.filter_app.
  rewrite filter_all.
  - replace (List.filter _ (map _ (map _ (b64_padding (length bs))))) with (@nil Z);
      [rewrite app_nil_r; reflexivity|].
    unfold b64_padding. destruct (length bs mod 3)%nat as [|[|[|]]]; reflexivity.
  - intros c Hc. apply in_map_iff in Hc as (y & <- & Hy).
    apply in_map_iff in Hy as (z & <- & Hz). apply in_map_iff in Hz as (i & <- & Hi).
    pose proof (proj1 (List.Forall_forall _ _) (b64_sextets_range bs Hb) i Hi) as Hr.
    destruct (b64_char_props i Hr) as (_ & _ & H61 & _).
    cbv beta. destruct (Z.eqb_spec (b64_char i) 43); [reflexivity|]. simpl.
    destruct (Z.eqb_spec (b64_char i) 47); [reflexivity|]. simpl.
    destruct (Z.eqb_spec (b64_char i) 61); [lia|reflexivity].
Qed.

Lemma base64_roundtrip (bs : list Z) :
  Forall is_byte bs ->
  exists o, arrayBufferToBase64 bs = Some o /\ base64ToArrayBuffer o = Some bs.
Proof.
  intros Hb. eexists. split; [exact (arrayBufferToBase64_bytes bs Hb)|].
  rewrite base64ToArrayBuffer_sextets.
  - rewrite (b64_bytes_sextets bs Hb). reflexivity.
  - exact (b64_sextets_range bs Hb).
  - exact (b64_sextets_length bs).
Qed.

(* ------------------------------------------------------------------ *)
(** ** UTF-8 round trip *)

Ltac zstep :=
  match goal with
  | |- context [Z.ltb ?a ?b] => destruct (Z.ltb_spec a b)
  | |- context [Z.leb ?a ?b] => destruct (Z.leb_spec a b)
  | |- context [Z.eqb ?a ?b] => destruct (Z.eqb_spec a b)
  end;
  cbn [andb orb negb fst snd utf8_cp bytes_needed bytes_seen lower_boundary
       upper_boundary] in *;
  try (exfalso; zlia).

Ltac ucbn :=
  cbn [utf8_cp bytes_needed bytes_seen lower_boundary upper_boundary fst snd app].

Lemma utf8_step_cont (st : utf8_state) (b : Z) :
  bytes_needed st <> 0 -> lower_boundary st <= b <= upper_boundary st ->
  utf8_step st b =
    (let c := utf8_cp st * 64 + b mod 64 in
     if bytes_seen st + 1 =? bytes_needed st then ([c], utf8_init)
     else ([], {| utf8_cp := c; bytes_needed := bytes_needed st;
                  bytes_seen := bytes_seen st + 1; lower_boundary := 128;
                  upper_boundary := 191 |})).
Proof.
  intros Hn Hb. unfold utf8_step.
  destruct (Z.eqb_spec (bytes_needed st) 0); [contradiction|].
  destruct (Z.leb_spec (lower_boundary st) b); [|lia].
  destruct (Z.leb_spec b (upper_boundary st)); [|lia]. reflexivity.
Qed.

Lemma utf8_decode_cp (c : Z) (rest : list Z) :
  0 <= c < 1114112 -> ~ (55296 <= c <= 57343) ->
  utf8_decode_from utf8_init (utf8_encode_cp c ++ rest) =
    c :: utf8_decode_from utf8_init rest.
Proof.
  intros Hc Hs. unfold utf8_encode_cp.
  destruct (Z.ltb_spec c 128).
  { cbn [app utf8_decode_from]. rewrite utf8_step_init. unfold utf8_start.
    destruct (Z.leb_spec c 127); [|lia]. reflexivity. }
  destruct (Z.ltb_spec c 2048).
  { assert (E1 : utf8_start (192 + c / 64) =
              ([], {| utf8_cp := (192 + c / 64) mod 32; bytes_needed := 1;
                      bytes_seen := 0; lower_boundary := 128; upper_boundary := 191 |})).
    { unfold utf8_start. repeat zstep. reflexivity. }
    cbn [app utf8_decode_from]. rewrite utf8_step_init, E1. cbn [fst snd app].
    rewrite utf8_step_cont by (ucbn; zlia). ucbn. repeat zstep. ucbn. f_equal. zlia. }
  destruct (Z.ltb_spec c 65536).
  { assert (E1 : utf8_start (224 + c / 4096) =
              ([], {| utf8_cp := (224 + c / 4096) mod 16; bytes_needed := 2;
                      bytes_seen := 0;
                      lower_boundary := if 224 + c / 4096 =? 224 then 160 else 128;
                      upper_boundary := if 224 + c / 4096 =? 237 then 159 else 191 |})).
    { unfold utf8_start. repeat zstep; reflexivity. }
    cbn [app utf8_decode_from]. rewrite utf8_step_init, E1. cbn [fst snd app].
    rewrite utf8_step_cont by (ucbn; repeat zstep; zlia). ucbn. repeat zstep.
    rewrite utf8_step_cont by (ucbn; zlia). ucbn. repeat zstep. ucbn. f_equal. zlia. }
  assert (E1 : utf8_start (240 + c / 262144) =
            ([], {| utf8_cp := (240 + c / 262144) mod 8; bytes_needed := 3;
                    bytes_seen := 0;
                    lower_boundary := if 240 + c / 262144 =? 240 then 144 else 128;
                    upper_boundary := if 240 + c / 262144 =? 244 then 143 else 191 |})).
  { unfold utf8_start. repeat zstep; reflexivity. }
  cbn [app utf8_decode_from]. rewrite utf8_step_init, E1. cbn [fst snd app].
  rewrite utf8_step_cont by (ucbn; repeat zstep; zlia). ucbn. repeat zstep.
  rewrite utf8_step_cont by (ucbn; zlia). ucbn. repeat zstep.
  rewrite utf8_step_cont by (ucbn; zlia). ucbn. repeat zstep. ucbn. f_equal. zlia.
Qed.

Lemma utf8_decode_encode (cps : list Z) :
  Forall (fun c => 0 <= c < 1114112 /\ ~ (55296 <= c <= 57343)) cps ->
  utf8_decode_from utf8_init (flat_map utf8_encode_cp cps) = cps.
Proof.
  induction 1 as [|c r [Hc Hs] _ IH]; [reflexivity|].
  cbn [flat_map]. rewrite (utf8_decode_cp c _ Hc Hs), IH. reflexivity.
Qed.

Lemma code_points_well_formed (s : jsstr) :
  well_formed_utf16 s = true ->
  Forall (fun c => 0 <= c < 1114112 /\ ~ (55296 <= c <= 57343)) (code_points s) /\
  flat_map utf16_of_cp (code_points s) = s /\
  (hd_error s <> Some 65279 -> hd_error (code_points s) <> Some 65279).
Proof.
  remember (length s) as n eqn:En. revert s En.
  induction n as [n IH] using (well_founded_induction lt_wf). intros s En Hw.
  destruct s as [|u r]; [repeat split; [constructor|intros; assumption]|].
  cbn [well_formed_utf16] in Hw. apply andb_true_iff in Hw as [Hu Hw].
  apply andb_true_iff in Hu as [Hu0 Hu1]. apply Z.leb_le in Hu0, Hu1.
  cbn [code_points]. unfold is_lead, is_trail in *.
  destruct (Z.leb_spec 55296 u); destruct (Z.leb_spec u 56319); cbn [andb] in *.
  - destruct r as [|v r']; [discriminate|].
    apply andb_true_iff in Hw as [Hv Hw].
    apply andb_true_iff in Hv as [Hv0 Hv1]. apply Z.leb_le in Hv0, Hv1.
    destruct (Z.leb_spec 56320 v); [|lia]. destruct (Z.leb_spec v 57343); [|lia].
    cbn [andb].
    destruct (IH (length r') ltac:(simpl in En; lia) r' eq_refl Hw) as (HF & HE & _).
    repeat split.
    + constructor; [split; zlia|exact HF].
    + cbn [flat_map]. rewrite HE. unfold utf16_of_cp.
      destruct (Z.ltb_spec (65536 + (u - 55296) * 1024 + (v - 56320)) 65536); [lia|].
      cbn [app]. f_equal; [zlia|f_equal; zlia].
    + intros _ E. cbn in E. injection E. lia.
  - destruct (Z.leb_spec 56320 u); destruct (Z.leb_spec u 57343); cbn [andb negb] in *;
      try lia; try discriminate.
    all: destruct (IH (length r) ltac:(simpl in En; lia) r eq_refl Hw) as (HF & HE & _).
    all: repeat split; [constructor; [split; lia|exact HF]
                       | cbn [flat_map]; rewrite HE; unfold utf16_of_cp;
                         destruct (Z.ltb_spec u 65536); [reflexivity|lia]
                       | intros Hhd E; apply Hhd; exact E].
  - destruct (Z.leb_spec 56320 u); destruct (Z.leb_spec u 57343); cbn [andb negb] in *;
      try lia; try discriminate.
    all: destruct (IH (length r) ltac:(simpl in En; lia) r eq_refl Hw) as (HF & HE & _).
    all: repeat split; [constructor; [split; lia|exact HF]
                       | cbn [flat_map]; rewrite HE; unfold utf16_of_cp;
                         destruct (Z.ltb_spec u 65536); [reflexivity|lia]
                       | intros Hhd E; apply Hhd; exact E].
  - lia.
Qed.

Lemma utf8_encode_bytes (c : Z) : 0 <= c < 1114112 -> Forall is_byte (utf8_encode_cp c).
Proof.
  intros Hc. unfold utf8_encode_cp.
  destruct (Z.ltb_spec c 128); [repeat constructor; unfold is_byte; zlia|].
  destruct (Z.ltb_spec c 2048); [repeat constructor; unfold is_byte; zlia|].
  destruct (Z.ltb_spec c 65536); repeat constructor; unfold is_byte; zlia.
Qed.

Lemma TextEncoder_bytes (s : jsstr) :
  Forall (fun c => 0 <= c < 1114112) (code_points s) -> Forall is_byte (TextEncoder_encode s).
Proof.
  unfold TextEncoder_encode. induction 1 as [|c r Hc _ IH]; [constructor|].
  cbn [flat_map]. apply Forall_app. split; [exact (utf8_encode_bytes c Hc)|exact IH].
Qed.

Lemma text_roundtrip (s : jsstr) :
  well_formed_utf16 s = true -> hd_error s <> Some 65279 ->
  TextDecoder_decode (TextEncoder_encode s) = s.
Proof.
  intros Hw Hb. destruct (code_points_well_formed s Hw) as (HF & HE & Hh).
  specialize (Hh Hb). unfold TextDecoder_decode, TextEncoder_encode.
  rewrite (utf8_decode_encode _ HF). cbv zeta.
  destruct (code_points s) as [|c r] eqn:E; [exact HE|].
  destruct (Z.eqb_spec c 65279) as [->|]; [contradiction|exact HE].
Qed.

Lemma arrayBufferToBase64_inv (bs : list Z) (o : jsstr) :
  arrayBufferToBase64 bs = Some o -> Forall is_byte bs /\ base64ToArrayBuffer o = Some bs.
Proof.
  intros E.
  assert (Hb : Forall is_byte bs).
  { unfold arrayBufferToBase64, btoa in E.
    destruct (forallb _ bs) eqn:F; [|discriminate].
    apply List.Forall_forall. intros x Hx.
    pose proof (proj1 (forallb_forall _ bs) F x Hx) as Hx'. cbv beta in Hx'.
    apply andb_true_iff in Hx' as [H0 H1]. apply Z.leb_le in H0, H1.
    unfold is_byte. lia. }
  split; [exact Hb|].
  destruct (base64_roundtrip bs Hb) as (o' & E' & D). congruence.
Qed.

Section AEAD.
Context {CryptoKey : Type}.
Variable aes_gcm_encrypt : CryptoKey -> list Z -> list Z -> list Z.
Variable aes_gcm_decrypt : CryptoKey -> list Z -> list Z -> option (list Z).

Lemma encrypt_blob (s : jsstr) (k : CryptoKey) (iv : list Z) (o : jsstr) :
  encrypt aes_gcm_encrypt s k iv = Some o ->
  Forall is_byte (iv ++ aes_gcm_encrypt k iv (TextEncoder_encode s)) /\
  base64ToArrayBuffer o = Some (iv ++ aes_gcm_encrypt k iv (TextEncoder_encode s)).
Proof. unfold encrypt. apply arrayBufferToBase64_inv. Qed.

Lemma decrypt_blob (o : jsstr) (k : CryptoKey) (iv c : list Z) :
  length iv = IV_LENGTH -> base64ToArrayBuffer o = Some (iv ++ c) ->
  decrypt aes_gcm_decrypt o k =
    match aes_gcm_decrypt k iv c with
    | Some m => Some (TextDecoder_decode m)
    | None => None
    end.
Proof.
  intros Hl E. unfold decrypt. rewrite E. cbv zeta.
  rewrite (take_app_length' iv c _ (eq_sym Hl)), (drop_app_length' iv c _ (eq_sym Hl)). reflexivity.
Qed.

Hypothesis aes_gcm_correct : forall k iv m,
  length iv = 12%nat -> Forall is_byte m -> aes_gcm_decrypt k iv (aes_gcm_encrypt k iv m) = Some m.
Hypothesis aes_gcm_bytes : forall k iv m,
  Forall is_byte m -> Forall is_byte (aes_gcm_encrypt k iv m).

Lemma encrypt_then_decrypt (s : jsstr) (k : CryptoKey) (iv : list Z) :
  length iv = 12%nat -> Forall is_byte iv -> Forall is_byte (TextEncoder_encode s) ->
  exists o, encrypt aes_gcm_encrypt s k iv = Some o /\
    decrypt aes_gcm_decrypt o k = Some (TextDecoder_decode (TextEncoder_encode s)).
Proof.
  intros Hl Hiv Hs.
  destruct (base64_roundtrip (iv ++ aes_gcm_encrypt k iv (TextEncoder_encode s)))
    as (o & E & D).
  { apply Forall_app. split; [exact Hiv|exact (aes_gcm_bytes k iv _ Hs)]. }
  exists o. split; [exact E|].
  rewrite (decrypt_blob o k iv _ Hl D), (aes_gcm_correct k iv _ Hl Hs). reflexivity.
Qed.

End AEAD.

Lemma bytes_of_forallb (l : list Z) :
  forallb (fun b => (0 <=? b) && (b <=? 255)) l = true -> Forall is_byte l.
Proof.
  intros H. apply List.Forall_forall. intros x Hx.
  pose proof (proj1 (forallb_forall _ l) H x Hx) as Hx'. cbv beta in Hx'.
  apply andb_true_iff in Hx' as [H0 H1]. apply Z.leb_le in H0, H1. unfold is_byte. lia.
Qed.

Lemma toy_open_seal (k : Z) (iv m : list Z) :
  length iv = 12%nat -> Forall is_byte m -> toy_open k iv (toy_seal k iv m) = Some m.
Proof.
  intros _ _. unfold toy_open. cbv zeta.
  assert (E : take (length (toy_seal k iv m) - 16) (toy_seal k iv m) = m).
  { unfold toy_seal. apply take_app_length'. rewrite length_app, repeat_length. lia. }
  rewrite E. case_decide; [reflexivity|congruence].
Qed.

Lemma toy_seal_bytes (k : Z) (iv m : list Z) :
  Forall is_byte m -> Forall is_byte (toy_seal k iv m).
Proof.
  intros Hm. unfold toy_seal. apply Forall_app. split; [exact Hm|].
  apply List.Forall_forall. intros x Hx. apply repeat_spec in Hx. subst x.
  unfold is_byte. zlia.
Qed.

Lemma toy_open_auth (k : Z) (iv c m : list Z) :
  toy_open k iv c = Some m -> c = toy_seal k iv m.
Proof.
  unfold toy_open. cbv zeta. case_decide as Hc; [|discriminate].
  intros E. injection E as <-. exact Hc.
Qed.

Lemma toy_seal_length (k : Z) (iv m : list Z) :
  length (toy_seal k iv m) = (length m + 16)%nat.
Proof. unfold toy_seal. rewrite length_app, repeat_length. reflexivity. Qed.

(** C6 (amended): for every AES-GCM whose decryption inverts its
    encryption on byte strings, every key [k], every 12-byte IV and every
    well-formed UTF-16 string [s] whose first code unit is not U+FEFF,
    [encrypt] succeeds and [decrypt] of its output under [k] returns [s]. *)
Theorem encrypt_decrypt_roundtrip {CryptoKey : Type}
  (aes_gcm_encrypt : CryptoKey -> list Z -> list Z -> list Z)
  (aes_gcm_decrypt : CryptoKey -> list Z -> list Z -> option (list Z))
  (aes_gcm_correct : forall k iv m, length iv = 12%nat -> Forall is_byte m ->
                       aes_gcm_decrypt k iv (aes_gcm_encrypt k iv m) = Some m)
  (aes_gcm_bytes : forall k iv m, Forall is_byte m -> Forall is_byte (aes_gcm_encrypt k iv m))
  (s : jsstr) (k : CryptoKey) (iv : list Z) :
  length iv = 12%nat -> Forall is_byte iv ->
  well_formed_utf16 s = true -> hd_error s <> Some 65279 ->
  exists o, encrypt aes_gcm_encrypt s k iv = Some o /\ decrypt aes_gcm_decrypt o k = Some s.
Proof.
  intros Hl Hiv Hw Hb.
  assert (Hs : Forall is_byte (TextEncoder_encode s)).
  { apply TextEncoder_bytes.
    apply (Forall_impl _ _ _ (proj1 (code_points_well_formed s Hw))).
    intros c [Hc _]. exact Hc. }
  destruct (encrypt_then_decrypt aes_gcm_encrypt aes_gcm_decrypt aes_gcm_correct
              aes_gcm_bytes s k iv Hl Hiv Hs) as (o & E & D).
  exists o. split; [exact E|]. rewrite D, (text_roundtrip s Hw Hb). reflexivity.
Qed.

Lemma encrypt_decrypt_roundtrip_witness :
  length (repeat 0 12) = 12%nat /\ well_formed_utf16 [104; 233; 55357; 56832] = true /\
  exists o, encrypt toy_seal [104; 233; 55357; 56832] 5 (repeat 0 12) = Some o /\
    decrypt toy_open o 5 = Some [104; 233; 55357; 56832].
Proof.
  split; [reflexivity|]. split; [reflexivity|].
  apply (encrypt_decrypt_roundtrip toy_seal toy_open toy_open_seal toy_seal_bytes).
  - reflexivity.
  - apply bytes_of_forallb. reflexivity.
  - reflexivity.
  - discriminate.
Defined.

(** C6 counterexample: whatever AES-GCM is, as long as its decryption
    inverts its encryption, a string starting with U+FEFF loses that code
    unit, and a lone surrogate comes back as U+FFFD. *)
Lemma encrypt_decrypt_changes_text :
  exists s1 s2 : jsstr, s1 = [65279; 120] /\ s2 = [55296] /\
  forall (CryptoKey : Type) (aes_gcm_encrypt : CryptoKey -> list Z -> list Z -> list Z)
    (aes_gcm_decrypt : CryptoKey -> list Z -> list Z -> option (list Z)),
  (forall k iv m, length iv = 12%nat -> Forall is_byte m ->
     aes_gcm_decrypt k iv (aes_gcm_encrypt k iv m) = Some m) ->
  (forall k iv m, Forall is_byte m -> Forall is_byte (aes_gcm_encrypt k iv m)) ->
  forall k iv, length iv = 12%nat -> Forall is_byte iv ->
  (exists o, encrypt aes_gcm_encrypt s1 k iv = Some o /\
             decrypt aes_gcm_decrypt o k = Some [120]) /\
  (exists o, encrypt aes_gcm_encrypt s2 k iv = Some o /\
             decrypt aes_gcm_decrypt o k = Some [65533]).
Proof.
  exists [65279; 120], [55296]. split; [reflexivity|]. split; [reflexivity|].
  intros CryptoKey enc dec Hc Hb k iv Hl Hiv. split.
  - destruct (encrypt_then_decrypt enc dec Hc Hb [65279; 120] k iv Hl Hiv
                ltac:(apply bytes_of_forallb; reflexivity)) as (o & E & D).
    exists o. split; [exact E|]. rewrite D. reflexivity.
  - destruct (encrypt_then_decrypt enc dec Hc Hb [55296] k iv Hl Hiv
                ltac:(apply bytes_of_forallb; reflexivity)) as (o & E & D).
    exists o. split; [exact E|]. rewrite D. reflexivity.
Qed.

(** C7: whatever AES-GCM computes, two calls of [encrypt] on the same
    plaintext and key with different 12-byte IVs that both succeed give
    different strings: each output decodes to its IV followed by the
    ciphertext, so the IV is recoverable from the output. *)
Theorem encrypt_fresh_iv {CryptoKey : Type}
  (aes_gcm_encrypt : CryptoKey -> list Z -> list Z -> list Z)
  (s : jsstr) (k : CryptoKey) (iv1 iv2 : list Z) (o1 o2 : jsstr) :
  length iv1 = 12%nat -> length iv2 = 12%nat -> iv1 <> iv2 ->
  encrypt aes_gcm_encrypt s k iv1 = Some o1 -> encrypt aes_gcm_encrypt s k iv2 = Some o2 ->
  o1 <> o2 /\
  base64ToArrayBuffer o1 = Some (iv1 ++ aes_gcm_encrypt k iv1 (TextEncoder_encode s)) /\
  base64ToArrayBuffer o2 = Some (iv2 ++ aes_gcm_encrypt k iv2 (TextEncoder_encode s)).
Proof.
  intros Hl1 Hl2 Hne E1 E2.
  destruct (encrypt_blob aes_gcm_encrypt s k iv1 o1 E1) as [_ D1].
  destruct (encrypt_blob aes_gcm_encrypt s k iv2 o2 E2) as [_ D2].
  split; [|split; assumption].
  intros ->. rewrite D1 in D2. injection D2 as D2.
  apply app_inj_1 in D2 as [D2 _]; [contradiction|congruence].
Qed.

Lemma encrypt_fresh_iv_witness :
  exists o1 o2,
    encrypt toy_seal (js "hi") 5 (repeat 0 12) = Some o1 /\
    encrypt toy_seal (js "hi") 5 (repeat 1 12) = Some o2 /\ o1 <> o2.
Proof.
  destruct (encrypt_then_decrypt toy_seal toy_open toy_open_seal toy_seal_bytes
              (js "hi") 5 (repeat 0 12) eq_refl
              ltac:(apply bytes_of_forallb; reflexivity)
              ltac:(apply bytes_of_forallb; reflexivity)) as (o1 & E1 & _).
  destruct (encrypt_then_decrypt toy_seal toy_open toy_open_seal toy_seal_bytes
              (js "hi") 5 (repeat 1 12) eq_refl
              ltac:(apply bytes_of_forallb; reflexivity)
              ltac:(apply bytes_of_forallb; reflexivity)) as (o2 & E2 & _).
  exists o1, o2. split; [exact E1|]. split; [exact E2|].
  exact (proj1 (encrypt_fresh_iv toy_seal (js "hi") 5 (repeat 0 12) (repeat 1 12) o1 o2
                  eq_refl eq_refl ltac:(discriminate) E1 E2)).
Defined.

(** The last character of a base64url string of [3n + 1] bytes carries four
    bits that decoding discards: the next character of the alphabet decodes
    to the same bytes. *)
Lemma base64_last_char_slack (bs : list Z) (o : jsstr) :
  (length bs mod 3 = 1)%nat -> arrayBufferToBase64 bs = Some o ->
  let o' := List.removelast o ++ [List.last o 0 + 1] in
  o' <> o /\ length o' = length o /\ base64ToArrayBuffer o' = Some bs.
Proof.
  intros Hl E. destruct (arrayBufferToBase64_inv bs o E) as [Hb _].
  rewrite (arrayBufferToBase64_bytes bs Hb) in E. injection E as <-.
  destruct bs as [|x r] using rev_ind; [discriminate|].
  rewrite length_app in Hl. cbn [length] in Hl.
  apply Forall_app in Hb as [Hr Hx]. inversion Hx as [|? ? Hx' _]; subst.
  unfold is_byte in Hx'.
  rewrite (b64_sextets_app r [x]) by nlia. cbn [b64_sextets].
  set (F := b64_sextets r).
  assert (HF : Forall (fun y => 0 <= y < 64) F) by exact (b64_sextets_range r Hr).
  assert (HL : (length F mod 4 = 0)%nat) by (apply b64_sextets_length3; nlia).
  assert (Hlast : forall t, t = (x mod 4) * 16 ->
            replace_unit 47 95 (replace_unit 43 45 [b64_char t]) = [b64_char t] /\
            b64_char t + 1 = b64_char (t + 1)).
  { intros t ->. assert (Hm : x mod 4 = 0 \/ x mod 4 = 1 \/ x mod 4 = 2 \/ x mod 4 = 3) by zlia.
    destruct Hm as [-> | [-> | [-> | ->]]]; split; reflexivity. }
  destruct (Hlast _ eq_refl) as [R1 R2]. destruct (Hlast _ eq_refl) as [_ R3].
  unfold replace_unit in *.
  replace (F ++ [x / 4; x mod 4 * 16]) with ((F ++ [x / 4]) ++ [x mod 4 * 16])
    by (rewrite <- app_assoc; reflexivity).
  rewrite !map_app. cbn [map] in R1 |- *. rewrite R1.
  rewrite List.removelast_last, List.last_last, R2.
  assert (Hd : base64ToArrayBuffer
                 (replace_unit 47 95 (replace_unit 43 45
                    (map b64_char (F ++ [x / 4; x mod 4 * 16 + 1])))) =
               Some (r ++ [x])).
  { rewrite base64ToArrayBuffer_sextets.
    - rewrite b64_bytes_app by exact HL. unfold F. rewrite (b64_bytes_sextets r Hr).
      cbn [b64_bytes]. do 3 f_equal. zlia.
    - apply Forall_app. split; [exact HF|]. repeat constructor; zlia.
    - rewrite length_app. cbn [length]. nlia. }
  unfold replace_unit in Hd. rewrite !map_app in Hd. cbn [map] in Hd.
  assert (R4 : (if b64_char (x mod 4 * 16 + 1) =? 43 then 45 else b64_char (x mod 4 * 16 + 1))
               = b64_char (x mod 4 * 16 + 1) /\
               (if b64_char (x mod 4 * 16 + 1) =? 47 then 95 else b64_char (x mod 4 * 16 + 1))
               = b64_char (x mod 4 * 16 + 1)).
  { assert (Hm : x mod 4 = 0 \/ x mod 4 = 1 \/ x mod 4 = 2 \/ x mod 4 = 3) by zlia.
    destruct Hm as [-> | [-> | [-> | ->]]]; split; reflexivity. }
  destruct R4 as [R4 R5]. rewrite R4, R5 in Hd.
  split; [|split].
  - intros Heq. apply app_inv_head in Heq. injection Heq. lia.
  - rewrite !length_app. reflexivity.
  - rewrite <- app_assoc. cbn [app]. exact Hd.
Qed.

(** C8 (amended): if AES-GCM decryption under [k] accepts only the
    encryptions under [k] (the tag check lets no other ciphertext through),
    then [decrypt input k] returns a plaintext only when the base64url
    decoding of [input] is an IV followed by an AES-GCM encryption under
    [k] and that IV of a message whose decoding is the returned plaintext. *)
Theorem decrypt_only_authentic {CryptoKey : Type}
  (aes_gcm_encrypt : CryptoKey -> list Z -> list Z -> list Z)
  (aes_gcm_decrypt : CryptoKey -> list Z -> list Z -> option (list Z))
  (aes_gcm_auth : forall k iv c m,
                    aes_gcm_decrypt k iv c = Some m -> c = aes_gcm_encrypt k iv m)
  (input : jsstr) (k : CryptoKey) (p : jsstr) :
  decrypt aes_gcm_decrypt input k = Some p ->
  exists iv m,
    base64ToArrayBuffer input = Some (iv ++ aes_gcm_encrypt k iv m) /\
    take IV_LENGTH (iv ++ aes_gcm_encrypt k iv m) = iv /\
    p = TextDecoder_decode m.
Proof.
  unfold decrypt. destruct (base64ToArrayBuffer input) as [combined|]; [|discriminate].
  cbv zeta. destruct (aes_gcm_decrypt k _ _) as [m|] eqn:Ed; [|discriminate].
  intros E. injection E as <-. apply aes_gcm_auth in Ed.
  exists (take IV_LENGTH combined), m. rewrite <- Ed, take_drop.
  split; [reflexivity|]. split; [|reflexivity].
  rewrite <- (take_drop IV_LENGTH combined) at 2. rewrite Ed.
  rewrite take_app. rewrite take_take, Nat.min_id.
  rewrite length_take. replace (IV_LENGTH - Nat.min IV_LENGTH (length combined))%nat
    with (if decide (length combined < IV_LENGTH)%nat then (IV_LENGTH - length combined)%nat
          else 0%nat) by (case_decide; lia).
  case_decide.
  - rewrite <- Ed. rewrite drop_ge by lia. rewrite take_nil, app_nil_r. reflexivity.
  - rewrite take_0, app_nil_r. reflexivity.
Qed.

Lemma decrypt_only_authentic_witness :
  exists o p, decrypt toy_open o 5 = Some p /\
    exists iv m,
      base64ToArrayBuffer o = Some (iv ++ toy_seal 5 iv m) /\
      take IV_LENGTH (iv ++ toy_seal 5 iv m) = iv /\ p = TextDecoder_decode m.
Proof.
  destruct (encrypt_then_decrypt toy_seal toy_open toy_open_seal toy_seal_bytes
              (js "hi") 5 (repeat 0 12) eq_refl
              ltac:(apply bytes_of_forallb; reflexivity)
              ltac:(apply bytes_of_forallb; reflexivity)) as (o & _ & D).
  exists o, (TextDecoder_decode (TextEncoder_encode (js "hi"))). split; [exact D|].
  exact (decrypt_only_authentic toy_seal toy_open toy_open_auth o 5 _ D).
Defined.

(** C8 counterexample: whatever AES-GCM is, as long as its decryption
    inverts its encryption and its tag is 16 bytes, the output of
    [encrypt] on the empty string with its last character replaced by the
    next code unit is a different string of the same length that
    [decrypt] accepts, returning the original (empty) plaintext. *)
Lemma decrypt_accepts_altered_input :
  exists s : jsstr, s = [] /\
  forall (CryptoKey : Type) (aes_gcm_encrypt : CryptoKey -> list Z -> list Z -> list Z)
    (aes_gcm_decrypt : CryptoKey -> list Z -> list Z -> option (list Z)),
  (forall k iv m, length iv = 12%nat -> Forall is_byte m ->
     aes_gcm_decrypt k iv (aes_gcm_encrypt k iv m) = Some m) ->
  (forall k iv m, Forall is_byte m -> Forall is_byte (aes_gcm_encrypt k iv m)) ->
  (forall k iv m, length (aes_gcm_encrypt k iv m) = (length m + 16)%nat) ->
  forall k iv, length iv = 12%nat -> Forall is_byte iv ->
  exists o, encrypt aes_gcm_encrypt s k iv = Some o /\
    List.removelast o ++ [List.last o 0 + 1] <> o /\
    length (List.removelast o ++ [List.last o 0 + 1]) = length o /\
    decrypt aes_gcm_decrypt (List.removelast o ++ [List.last o 0 + 1]) k = Some s.
Proof.
  exists []. split; [reflexivity|].
  intros CryptoKey enc dec Hc Hb Ht k iv Hl Hiv.
  assert (Hbb : Forall is_byte (iv ++ enc k iv (TextEncoder_encode []))).
  { apply Forall_app. split; [exact Hiv|]. apply Hb. constructor. }
  destruct (base64_roundtrip _ Hbb) as (o & E & _).
  exists o. split; [exact E|].
  assert (Hlen : (length (iv ++ enc k iv (TextEncoder_encode [])) mod 3 = 1)%nat).
  { rewrite length_app, Ht, Hl. reflexivity. }
  destruct (base64_last_char_slack _ o Hlen E) as (H1 & H2 & H3).
  split; [exact H1|]. split; [exact H2|].
  rewrite (decrypt_blob dec _ k iv _ Hl H3), (Hc k iv (TextEncoder_encode []) Hl (List.Forall_nil _)). reflexivity.
Qed.

(* ------------------------------------------------------------------ *)
(** ** Further properties of the code *)

Lemma agree_refl t rl : agree t rl rl.
Proof. intros k. reflexivity. Qed.

Lemma agree_trans t rl1 rl2 rl3 : agree t rl1 rl2 -> agree t rl2 rl3 -> agree t rl1 rl3.
Proof. intros H1 H2 k. rewrite H1. apply H2. Qed.

Lemma live_mono t t' o : t <= t' -> live t' o = live t' (live t o).
Proof.
  intros Ht. destruct o as [l|]; [|reflexivity]. cbn [live].
  destruct (Z.leb_spec (resetTime l) t); cbn [live].
  - destruct (Z.leb_spec (resetTime l) t'); [reflexivity|lia].
  - reflexivity.
Qed.

Lemma agree_mono t t' rl1 rl2 : t <= t' -> agree t rl1 rl2 -> agree t' rl1 rl2.
Proof. intros Ht H k. rewrite (live_mono t t' _ Ht), H, <- (live_mono t t' _ Ht). reflexivity. Qed.

Lemma agree_cleanup t t' rl : t' <= t -> agree t (cleanup rl t') rl.
Proof.
  intros Ht k. unfold cleanup. rewrite map_lookup_filter.
  destruct (rl !! k) as [l|]; [|reflexivity]. cbn [mbind option_bind].
  case_guard as Hg; cbn; [reflexivity|].
  destruct (Z.leb_spec (resetTime l) t); [reflexivity|]. simpl in Hg. lia.
Qed.

Lemma checkRateLimit_live rl identifier endpoint config now :
  checkRateLimit rl identifier endpoint config now =
    let key := rl_key identifier endpoint in
    let log := match live now (rl !! key) with
               | Some l => l
               | None => {| count := 0; resetTime := now + interval config |}
               end in
    let log' := {| count := count log + 1; resetTime := resetTime log |} in
    ({| success := count log' <=? maxRequests config; limit := maxRequests config;
        remaining := Z.max 0 (maxRequests config - count log'); reset := resetTime log' |},
     <[key := log']> rl).
Proof.
  unfold checkRateLimit. cbv zeta.
  destruct (rl !! rl_key identifier endpoint) as [l|]; [|reflexivity]. cbn [live].
  destruct (resetTime l <=? now); reflexivity.
Qed.

Lemma checkRateLimit_agree t rl1 rl2 identifier endpoint config :
  agree t rl1 rl2 ->
  fst (checkRateLimit rl1 identifier endpoint config t) =
    fst (checkRateLimit rl2 identifier endpoint config t) /\
  agree t (snd (checkRateLimit rl1 identifier endpoint config t))
          (snd (checkRateLimit rl2 identifier endpoint config t)).
Proof.
  intros H. rewrite !checkRateLimit_live. cbv zeta. cbn [fst snd].
  rewrite (H (rl_key identifier endpoint)). split; [reflexivity|].
  intros k. destruct (decide (k = rl_key identifier endpoint)) as [->|Hk].
  - rewrite !lookup_insert_eq. reflexivity.
  - rewrite !lookup_insert_ne by congruence. apply H.
Qed.

Lemma run_limiter_agree evs : forall t rl1 rl2,
  agree t rl1 rl2 -> times_from t (map event_time evs) = true ->
  run_limiter rl1 evs = run_limiter rl2 (List.filter is_call evs).
Proof.
  induction evs as [|e evs IH]; intros t rl1 rl2 H Ht; [reflexivity|].
  cbn [map times_from] in Ht. apply andb_true_iff in Ht as [Ht Hr].
  apply Z.leb_le in Ht. pose proof (agree_mono _ _ _ _ Ht H) as H'.
  destruct e as [i e c t0|t0]; cbn [event_time List.filter is_call run_limiter] in *.
  - destruct (checkRateLimit_agree t0 rl1 rl2 i e c H') as [Hr1 Hr2].
    destruct (checkRateLimit rl1 i e c t0) as [r1 l1].
    destruct (checkRateLimit rl2 i e c t0) as [r2 l2].
    cbn [fst snd] in *. subst r2. f_equal. exact (IH t0 l1 l2 Hr2 Hr).
  - apply (IH t0); [|exact Hr].
    apply (agree_trans _ _ rl1); [apply agree_cleanup; lia|exact H'].
Qed.

(** X1: The periodic cleanup of expired request-log entries never changes a rate-limit decision: for calls and cleanups at nondecreasing times, the results of the calls are the same as with every cleanup removed. *)
Theorem cleanup_invisible (rl : gmap jsstr RequestLog) (evs : list LimiterEvent) (t : Z) :
  times_from t (map event_time evs) = true ->
  run_limiter rl evs = run_limiter rl (List.filter is_call evs).
Proof. intros Ht. exact (run_limiter_agree evs t rl rl (agree_refl t rl) Ht). Qed.

(** X2: For a positive interval, the result of checkRateLimit reports limit = maxRequests, a non-negative remaining count that is 0 whenever the call is refused, and a reset time strictly after now. *)
Theorem checkRateLimit_result_bounds (rl : gmap jsstr RequestLog)
    (identifier endpoint : jsstr) (config : RateLimitConfig) (now : Z) :
  0 < interval config ->
  let r := fst (checkRateLimit rl identifier endpoint config now) in
  limit r = maxRequests config /\ 0 <= remaining r /\
  (success r = false -> remaining r = 0) /\ now < reset r.
Proof.
  intros Hi. unfold checkRateLimit. cbv zeta.
  destruct (rl !! rl_key identifier endpoint) as [l|]; cbn [fst success limit remaining reset].
  - destruct (Z.leb_spec (resetTime l) now); cbn [count resetTime];
      repeat split; try lia; try (intros Hs; apply Z.leb_gt in Hs; lia).
  - cbn [count resetTime]. repeat split; try lia; try (intros Hs; apply Z.leb_gt in Hs; lia).
Qed.

Lemma app_sep_inj (c : Z) (a b a' b' : list Z) :
  ~ In c a -> ~ In c a' -> a ++ c :: b = a' ++ c :: b' -> a = a' /\ b = b'.
Proof.
  revert a'. induction a as [|x a IH]; intros [|x' a'] Ha Ha' E; cbn [app] in E.
  - injection E as ->. auto.
  - injection E as -> _. exfalso. apply Ha'. left. reflexivity.
  - injection E as <- _. exfalso. apply Ha. left. reflexivity.
  - injection E as -> E.
    destruct (IH a') as [-> ->]; [intros Hin; apply Ha; right; exact Hin
                                 |intros Hin; apply Ha'; right; exact Hin|exact E|].
    auto.
Qed.

Lemma rl_key_inj (i1 e1 i2 e2 : jsstr) :
  ~ In 58 e1 -> ~ In 58 e2 -> rl_key i1 e1 = rl_key i2 e2 -> i1 = i2 /\ e1 = e2.
Proof.
  unfold rl_key. intros H1 H2 E. apply (f_equal (@rev Z)) in E.
  change (js ":") with [58] in E. rewrite !rev_app_distr in E. cbn [rev app] in E.
  rewrite <- !app_assoc in E. cbn [app] in E.
  apply app_sep_inj in E as [E1 E2].
  - split; [rewrite <- (rev_involutive i1), E2, rev_involutive|
            rewrite <- (rev_involutive e1), E1, rev_involutive]; reflexivity.
  - intros Hin. apply H1. apply in_rev. exact Hin.
  - intros Hin. apply H2. apply in_rev. exact Hin.
Qed.

(** X3: For endpoints without ':', a call for one (identifier, endpoint) key does not change the result of a later call for a different key. *)
Theorem checkRateLimit_keys_separate (rl : gmap jsstr RequestLog)
    (i1 e1 i2 e2 : jsstr) (c1 c2 : RateLimitConfig) (t1 t2 : Z) :
  ~ In 58 e1 -> ~ In 58 e2 -> (i1, e1) <> (i2, e2) ->
  fst (checkRateLimit (snd (checkRateLimit rl i1 e1 c1 t1)) i2 e2 c2 t2) =
    fst (checkRateLimit rl i2 e2 c2 t2).
Proof.
  intros H1 H2 Hne. unfold checkRateLimit at 2. cbv zeta. cbn [snd].
  unfold checkRateLimit. cbv zeta. cbn [fst].
  rewrite lookup_insert_ne; [reflexivity|].
  intros E. apply Hne. destruct (rl_key_inj i1 e1 i2 e2 H1 H2 E) as [-> ->]. reflexivity.
Qed.

Lemma headers_get_single (h : Headers) (name v : jsstr) :
  filter (fun e => fst e = name) h = [(name, v)] -> headers_get h name = Some v.
Proof. unfold headers_get. intros ->. reflexivity. Qed.

Lemma set_first_other (h : Headers) (name v m : jsstr) :
  m <> name ->
  filter (fun e => fst e = m) (set_first h name v) = filter (fun e => fst e = m) h.
Proof.
  intros Hm. induction h as [|e r IH]; [reflexivity|]. cbn [set_first].
  case_decide as He.
  - rewrite (filter_cons_False (fun e : jsstr * jsstr => e.1 = m) (name, v)) by (cbn; congruence).
    rewrite (filter_cons_False (fun e : jsstr * jsstr => e.1 = m) e) by congruence.
    rewrite list_filter_filter. apply list_filter_iff. intros x. split; [tauto|].
    intros Hx. split; [exact Hx|]. congruence.
  - rewrite !(filter_cons (fun e : jsstr * jsstr => e.1 = m)). case_decide; [f_equal|]; exact IH.
Qed.

Lemma set_first_same (h : Headers) (name v : jsstr) :
  existsb (fun e => bool_decide (fst e = name)) h = true ->
  filter (fun e => fst e = name) (set_first h name v) = [(name, v)].
Proof.
  induction h as [|e r IH]; [discriminate|]. cbn [existsb set_first]. intros Hx.
  destruct (decide (e.1 = name)) as [He|He].
  - rewrite (filter_cons_True (fun e : jsstr * jsstr => e.1 = name) (name, v)) by reflexivity.
    f_equal. rewrite list_filter_filter. clear IH Hx.
    induction r as [|x r IHr]; [reflexivity|].
    rewrite (filter_cons_False (fun e : jsstr * jsstr => e.1 = name /\ e.1 <> name)) by tauto.
    exact IHr.
  - rewrite (filter_cons_False (fun e : jsstr * jsstr => e.1 = name)) by exact He. apply IH.
    rewrite bool_decide_false in Hx by exact He. exact Hx.
Qed.

Lemma filter_none (h : list (jsstr * jsstr)) (name : jsstr) :
  existsb (fun e => bool_decide (fst e = name)) h = false ->
  filter (fun e => fst e = name) h = [].
Proof.
  induction h as [|e r IH]; [reflexivity|]. cbn [existsb]. intros Hx.
  apply orb_false_iff in Hx as [He Hr].
  rewrite (filter_cons_False (fun e : jsstr * jsstr => e.1 = name)).
  - exact (IH Hr).
  - intros E. rewrite bool_decide_true in He by exact E. discriminate.
Qed.

Lemma headers_set_same (h : Headers) (name v : jsstr) :
  headers_get (headers_set h name v) name = Some v.
Proof.
  apply headers_get_single. unfold headers_set.
  destruct (existsb _ h) eqn:Ex; [exact (set_first_same h name v Ex)|].
  rewrite (filter_app (fun e : jsstr * jsstr => e.1 = name)), (filter_none h name Ex).
  rewrite (filter_cons_True (fun e : jsstr * jsstr => e.1 = name)) by reflexivity.
  reflexivity.
Qed.

Lemma headers_set_other (h : Headers) (name v m : jsstr) :
  m <> name -> headers_get (headers_set h name v) m = headers_get h m.
Proof.
  intros Hm. unfold headers_get, headers_set.
  destruct (existsb _ h).
  - rewrite (set_first_other h name v m Hm). reflexivity.
  - rewrite (filter_app (fun e : jsstr * jsstr => e.1 = m)), (filter_cons_False (fun e : jsstr * jsstr => e.1 = m)) by (cbn; congruence).
    rewrite app_nil_r. reflexivity.
Qed.
(** X5: addRateLimitHeaders keeps the status, makes the three X-RateLimit headers read back the given numbers, and leaves every other header as it was. *)
Theorem addRateLimitHeaders_spec (response : HttpResponse) (limit remaining reset : Z) :
  let r := addRateLimitHeaders response limit remaining reset in
  hstatus r = hstatus response /\
  headers_get (hheaders r) (js "x-ratelimit-limit") = Some (Number_toString limit) /\
  headers_get (hheaders r) (js "x-ratelimit-remaining") = Some (Number_toString remaining) /\
  headers_get (hheaders r) (js "x-ratelimit-reset") = Some (Number_toString reset) /\
  (forall name, name <> js "x-ratelimit-limit" -> name <> js "x-ratelimit-remaining" ->
     name <> js "x-ratelimit-reset" ->
     headers_get (hheaders r) name = headers_get (hheaders response) name).
Proof.
  cbv zeta. unfold addRateLimitHeaders. cbv zeta. cbn [hstatus hheaders].
  split; [reflexivity|]. split.
  { rewrite headers_set_other by (vm_compute; congruence).
    rewrite headers_set_other by (vm_compute; congruence).
    apply headers_set_same. }
  split.
  { rewrite headers_set_other by (vm_compute; congruence). apply headers_set_same. }
  split; [apply headers_set_same|].
  intros name H1 H2 H3. rewrite !headers_set_other by assumption. reflexivity.
Qed.

(** X4: The 429 response carries X-RateLimit-Limit, X-RateLimit-Remaining = 0, X-RateLimit-Reset and a Retry-After of n seconds with reset <= now + 1000 n < reset + 1000, and n >= 1 when reset is in the future. *)
Theorem createRateLimitResponse_spec (limit remaining reset now : Z) :
  let r := createRateLimitResponse limit remaining reset now in
  hstatus r = 429 /\
  headers_get (hheaders r) (js "x-ratelimit-limit") = Some (Number_toString limit) /\
  headers_get (hheaders r) (js "x-ratelimit-remaining") = Some (js "0") /\
  headers_get (hheaders r) (js "x-ratelimit-reset") = Some (Number_toString reset) /\
  exists n, headers_get (hheaders r) (js "retry-after") = Some (Number_toString n) /\
    reset <= now + 1000 * n < reset + 1000 /\ (now < reset -> 1 <= n).
Proof.
  cbv zeta. unfold createRateLimitResponse, headers_get. cbn [hstatus hheaders].
  split; [reflexivity|].
  repeat split; [reflexivity..|].
  exists (ceil_div1000 (reset - now)). split; [reflexivity|].
  unfold ceil_div1000. split; [zlia|]. intros H. zlia.
Qed.

Lemma forall_range (P : Z -> Prop) `{forall x, Decision (P x)} (n : nat) :
  forallb (fun k => bool_decide (P (Z.of_nat k))) (seq 0 n) = true ->
  forall x, 0 <= x < Z.of_nat n -> P x.
Proof.
  intros Hall x Hx. rewrite forallb_forall in Hall.
  specialize (Hall (Z.to_nat x) (proj2 (in_seq n 0 (Z.to_nat x)) ltac:(lia))).
  apply bool_decide_eq_true in Hall. rewrite Z2Nat.id in Hall by lia. exact Hall.
Qed.

Lemma hex_byte (b : Z) :
  0 <= b < 256 ->
  padStart (Number_toString_radix 16 b) 2 48 = [digit_char (b / 16); digit_char (b mod 16)].
Proof.
  apply (forall_range (fun b => padStart (Number_toString_radix 16 b) 2 48 =
                                  [digit_char (b / 16); digit_char (b mod 16)]) 256).
  vm_compute. reflexivity.
Qed.

Lemma digit_char_lower_hex (d : Z) : 0 <= d < 16 -> is_lower_hex (digit_char d) = true.
Proof. apply (forall_range (fun d => is_lower_hex (digit_char d) = true) 16). reflexivity. Qed.

Lemma digit_char_inj (d d' : Z) :
  0 <= d < 16 -> 0 <= d' < 16 -> digit_char d = digit_char d' -> d = d'.
Proof. unfold digit_char. intros H1 H2. zcase; lia. Qed.

Lemma generateId_bytes (bytes : list Z) :
  Forall is_byte bytes ->
  generateId bytes = concat (map (fun b => [digit_char (b / 16); digit_char (b mod 16)]) bytes).
Proof.
  intros Hb. unfold generateId. f_equal. apply map_ext_in. intros b Hin.
  apply hex_byte. pose proof (proj1 (List.Forall_forall _ _) Hb b Hin). unfold is_byte in *. lia.
Qed.

(** X6: generateId on 16 random bytes gives 32 lower-case hexadecimal characters. *)
Theorem generateId_format (bytes : list Z) :
  length bytes = 16%nat -> Forall is_byte bytes ->
  length (generateId bytes) = 32%nat /\
  Forall (fun c => is_lower_hex c = true) (generateId bytes).
Proof.
  intros Hl Hb. rewrite (generateId_bytes bytes Hb). split.
  - assert (E : forall l : list Z,
               length (concat (map (fun b => [digit_char (b / 16); digit_char (b mod 16)]) l)) =
               (2 * length l)%nat).
    { induction l as [|b r IH]; [reflexivity|].
      cbn [map concat]. rewrite length_app, IH. cbn [length]. lia. }
    rewrite E, Hl. reflexivity.
  - clear Hl. induction Hb as [|b r Hb _ IH]; [constructor|].
    cbn [map concat]. apply Forall_app. split; [|exact IH]. unfold is_byte in Hb.
    repeat constructor; apply digit_char_lower_hex; zlia.
Qed.

(** X7: generateId is injective on byte arrays: distinct random bytes give distinct ids. *)
Theorem generateId_injective (bytes1 bytes2 : list Z) :
  Forall is_byte bytes1 -> Forall is_byte bytes2 ->
  generateId bytes1 = generateId bytes2 -> bytes1 = bytes2.
Proof.
  intros H1 H2. rewrite (generateId_bytes _ H1), (generateId_bytes _ H2).
  revert bytes2 H2. induction H1 as [|b r Hb Hr IH]; intros bytes2 H2 E;
    destruct H2 as [|b' r' Hb' Hr']; cbn [map concat app] in E; try discriminate.
  - reflexivity.
  - injection E as E1 E2 E. unfold is_byte in *.
    apply digit_char_inj in E1; [|zlia|zlia]. apply digit_char_inj in E2; [|zlia|zlia].
    f_equal; [zlia|]. exact (IH r' Hr' E).
Qed.

(** ** Base64url strings *)

Lemma b64_sextets_len (bs : list Z) :
  length (b64_sextets bs) = ((4 * length bs + 2) / 3)%nat.
Proof.
  induction bs as [|a|a b|a b c r IH] using list_ind3; cbn [b64_sextets length]; try reflexivity.
  rewrite IH. nlia.
Qed.

Lemma b64_url_char (i : Z) :
  0 <= i < 64 ->
  is_url_safe (if (if b64_char i =? 43 then 45 else b64_char i) =? 47 then 95
               else if b64_char i =? 43 then 45 else b64_char i) = true.
Proof.
  apply (forall_range (fun i => is_url_safe (if (if b64_char i =? 43 then 45 else b64_char i) =? 47 then 95
               else if b64_char i =? 43 then 45 else b64_char i) = true) 64).
  reflexivity.
Qed.

Lemma arrayBufferToBase64_shape (bs : list Z) :
  Forall is_byte bs ->
  exists o, arrayBufferToBase64 bs = Some o /\ url_safe o /\
    length o = ((4 * length bs + 2) / 3)%nat /\ base64ToArrayBuffer o = Some bs.
Proof.
  intros Hb. destruct (base64_roundtrip bs Hb) as (o & Ho & Hd).
  exists o. split; [exact Ho|]. split; [|split; [|exact Hd]].
  - rewrite (arrayBufferToBase64_bytes bs Hb) in Ho. injection Ho as <-.
    unfold url_safe, replace_unit. rewrite !map_map. apply List.Forall_forall.
    intros c Hc. apply in_map_iff in Hc as (i & <- & Hi).
    apply b64_url_char. exact (proj1 (List.Forall_forall _ _) (b64_sextets_range bs Hb) i Hi).
  - rewrite (arrayBufferToBase64_bytes bs Hb) in Ho. injection Ho as <-.
    unfold replace_unit. rewrite !length_map. apply b64_sextets_len.
Qed.

(** X8: arrayBufferToBase64 on n bytes gives an unpadded base64url string of (4n+2)/3 characters, which base64ToArrayBuffer decodes back to the same bytes. *)
Theorem arrayBufferToBase64_roundtrip (bs : list Z) :
  Forall is_byte bs ->
  exists o, arrayBufferToBase64 bs = Some o /\ url_safe o /\
    length o = ((4 * length bs + 2) / 3)%nat /\ base64ToArrayBuffer o = Some bs.
Proof. exact (arrayBufferToBase64_shape bs). Qed.

(** X10: generateWriteToken on 32 random bytes gives a 43-character base64url token that decodes back to those bytes. *)
Theorem generateWriteToken_spec (bytes : list Z) :
  length bytes = 32%nat -> Forall is_byte bytes ->
  exists token, generateWriteToken bytes = Some token /\ length token = 43%nat /\
    url_safe token /\ base64ToArrayBuffer token = Some bytes.
Proof.
  intros Hl Hb. destruct (arrayBufferToBase64_shape bytes Hb) as (o & Ho & Hs & Hlen & Hd).
  exists o. rewrite Hl in Hlen. repeat split; assumption.
Qed.

Lemma b64_indices_eq (s : jsstr) : b64_indices (s ++ [61]) = None.
Proof.
  induction s as [|c r IH]; [reflexivity|]. cbn [app b64_indices]. rewrite IH.
  destruct (b64_index c); reflexivity.
Qed.

Lemma url_char_std (x : Z) :
  0 <= x < 128 -> is_url_safe x = true ->
  (if (if x =? 45 then 43 else x) =? 95 then 47 else if x =? 45 then 43 else x) <> 61 /\
  is_ascii_ws (if (if x =? 45 then 43 else x) =? 95 then 47 else if x =? 45 then 43 else x) = false.
Proof.
  apply (forall_range (fun x => is_url_safe x = true ->
    (if (if x =? 45 then 43 else x) =? 95 then 47 else if x =? 45 then 43 else x) <> 61 /\
    is_ascii_ws (if (if x =? 45 then 43 else x) =? 95 then 47 else if x =? 45 then 43 else x) = false) 128).
  vm_compute. reflexivity.
Qed.

(** X9: base64ToArrayBuffer rejects every base64url string whose length is 1 modulo 4. *)
Theorem base64ToArrayBuffer_rejects_1mod4 (s : jsstr) :
  url_safe s -> (length s mod 4 = 1)%nat -> base64ToArrayBuffer s = None.
Proof.
  intros Hs Hl. unfold base64ToArrayBuffer, atob. cbv zeta.
  set (std := replace_unit 95 47 (replace_unit 45 43 s)).
  assert (Hstd : Forall (fun c => c <> 61 /\ is_ascii_ws c = false) std).
  { unfold std, replace_unit. rewrite map_map. apply List.Forall_forall.
    intros c Hc. apply in_map_iff in Hc as (x & <- & Hx).
    pose proof (proj1 (List.Forall_forall _ _) Hs x Hx) as Hu.
    destruct (url_safe_char x Hu) as (Hr & _).
    exact (url_char_std x Hr Hu). }
  assert (Hlen : length std = length s) by (unfold std, replace_unit; rewrite !length_map; reflexivity).
  rewrite Hlen.
  replace ((4 - length s mod 4) mod 4)%nat with 3%nat by (rewrite Hl; reflexivity).
  rewrite List.filter_app, filter_all.
  2: { intros x Hx. destruct (proj1 (List.Forall_forall _ _) Hstd x Hx) as [_ ->]. reflexivity. }
  cbn [repeat List.filter is_ascii_ws Z.eqb Pos.eqb orb negb].
  unfold strip_padding. rewrite length_app, Hlen. cbn [length].
  replace ((length s + 3) mod 4)%nat with 0%nat by nlia. cbn [Nat.eqb].
  rewrite rev_app_distr. cbn [rev app Z.eqb Pos.eqb andb].
  rewrite rev_involutive.
  replace (Nat.eqb (length (std ++ [61]) mod 4) 1) with false by (rewrite length_app, Hlen; cbn [length]; symmetry; apply Nat.eqb_neq; nlia).
  rewrite b64_indices_eq. reflexivity.
Qed.

(** X11: For a 32-byte digest, hashWriteToken gives a 43-character base64url hash, and verifyWriteToken accepts a stored hash exactly when it equals that hash. *)
Theorem hashWriteToken_verifyWriteToken (sha256 : list Z -> list Z) (token : jsstr) :
  length (sha256 (TextEncoder_encode token)) = 32%nat ->
  Forall is_byte (sha256 (TextEncoder_encode token)) ->
  exists h, hashWriteToken sha256 token = Some h /\ length h = 43%nat /\ url_safe h /\
    forall stored, verifyWriteToken sha256 token stored = Some (bool_decide (h = stored)).
Proof.
  intros Hl Hb. destruct (arrayBufferToBase64_shape _ Hb) as (h & Hh & Hs & Hlen & _).
  exists h. unfold verifyWriteToken, hashWriteToken. cbv zeta. rewrite Hh, Hlen, Hl.
  split; [reflexivity|]. split; [reflexivity|]. split; [exact Hs|]. intros stored. reflexivity.
Qed.

(** X12: exportKey gives base64url text, and importKey of that text imports exactly the raw key bytes that were exported. *)
Theorem importKey_exportKey {CryptoKey : Type} (exportRaw : CryptoKey -> list Z)
    (importRaw : list Z -> option CryptoKey) (key : CryptoKey) :
  Forall is_byte (exportRaw key) ->
  exists keyString, exportKey exportRaw key = Some keyString /\ url_safe keyString /\
    importKey importRaw keyString = importRaw (exportRaw key).
Proof.
  intros Hb. destruct (arrayBufferToBase64_shape _ Hb) as (s & Hs & Hu & _ & Hd).
  exists s. unfold exportKey, importKey. rewrite Hs, Hd. auto.
Qed.

Lemma lower_hex_url_safe (s : jsstr) :
  Forall (fun c => is_lower_hex c = true) s -> url_safe s.
Proof.
  intros H. eapply Forall_impl; [exact H|]. intros c. unfold is_lower_hex, is_url_safe.
  rewrite !orb_true_iff, !andb_true_iff, !Z.leb_le, !Z.eqb_eq. lia.
Qed.

Lemma generateId_url_safe (bytes : list Z) : Forall is_byte bytes -> url_safe (generateId bytes).
Proof.
  intros Hb. apply lower_hex_url_safe. rewrite (generateId_bytes bytes Hb).
  induction Hb as [|b r Hb _ IH]; [constructor|].
  cbn [map concat]. apply Forall_app. split; [|exact IH]. unfold is_byte in Hb.
  repeat constructor; apply digit_char_lower_hex; zlia.
Qed.

Lemma key_token_no_hash (key tok : jsstr) :
  url_safe key -> url_safe tok -> ~ In 35 (key ++ js "&write=" ++ tok).
Proof.
  intros Hk Ht Hin. apply in_app_or in Hin as [Hin|Hin];
    [exact (url_safe_not_in key 35 Hk ltac:(lia) Hin)|].
  apply in_app_or in Hin as [Hin|Hin]; [vm_compute in Hin; lia|].
  exact (url_safe_not_in tok 35 Ht ltac:(lia) Hin).
Qed.

Lemma loadFromUrl_capability (docId key tok : jsstr) :
  url_safe docId -> url_safe key -> url_safe tok -> tok <> [] -> key <> js "write" ->
  loadFromUrl (docId ++ js "#" ++ key ++ js "&write=" ++ tok) = LoadDocument docId key (Some tok).
Proof.
  intros Hd Hk Ht Hne Hw.
  pose proof (loadFromUrl_split docId (key ++ js "&write=" ++ tok) []
                (url_safe_not_in docId 35 Hd ltac:(lia)) (key_token_no_hash key tok Hk Ht)
                (or_introl eq_refl)) as E.
  rewrite app_nil_r in E. change (js "#") with [35]. cbn [app]. rewrite E.
  pose proof (parse_key_token_roundtrip key tok Hk Ht Hw) as P.
  destruct tok as [|c r]; [congruence|]. cbn [str_truthy] in P. rewrite P. reflexivity.
Qed.

(** X13: The fragment that handleShare writes (generated id, exported key, generated write token) is read back by loadFromUrl as that id, key and token. *)
Theorem handleShare_link_loads_back {CryptoKey : Type} (exportRaw : CryptoKey -> list Z)
    (key : CryptoKey) (idBytes tokenBytes : list Z) :
  length idBytes = 16%nat -> Forall is_byte idBytes ->
  length (exportRaw key) = 32%nat -> Forall is_byte (exportRaw key) ->
  length tokenBytes = 32%nat -> Forall is_byte tokenBytes ->
  exists keyString token,
    exportKey exportRaw key = Some keyString /\ generateWriteToken tokenBytes = Some token /\
    loadFromUrl (share_hash (generateId idBytes) keyString token) =
      LoadDocument (generateId idBytes) keyString (Some token).
Proof.
  intros Hil Hib Hkl Hkb Htl Htb.
  destruct (arrayBufferToBase64_shape _ Hkb) as (k & Hk & Hku & Hklen & _).
  destruct (arrayBufferToBase64_shape _ Htb) as (t & Ht & Htu & Htlen & _).
  exists k, t. split; [exact Hk|]. split; [exact Ht|].
  rewrite Hkl in Hklen. rewrite Htl in Htlen. cbn in Hklen, Htlen.
  apply loadFromUrl_capability; [exact (generateId_url_safe idBytes Hib)|exact Hku|exact Htu| |].
  - intros ->. discriminate.
  - intros E. rewrite E in Hklen. discriminate.
Qed.

Lemma break_at_app c (a b : list Z) : ~ In c a -> break_at c (a ++ c :: b) = (a, b).
Proof.
  induction a as [|x r IH]; intros Hn; cbn [app break_at].
  - rewrite Z.eqb_refl. reflexivity.
  - destruct (Z.eqb_spec x c) as [->|Hx]; [exfalso; apply Hn; left; reflexivity|].
    rewrite IH; [reflexivity|]. intros Hin. apply Hn. right. exact Hin.
Qed.

Lemma parse_key_token_key (key : jsstr) :
  url_safe key -> exists tok, parse_key_token key = (key, tok) /\ opt_truthy tok = false.
Proof.
  intros Hk. unfold parse_key_token, URLSearchParams_get.
  rewrite (strip_question_mark key (url_safe_head key Hk)), (urlencoded_parse_key key Hk).
  destruct key as [|c r]; [exists None; auto|]. cbn [List.find fst snd].
  case_decide as E; cbn [opt_truthy str_truthy]; eexists; split; reflexivity.
Qed.

(** X14: For an origin without '#' and non-empty base64url id, key and token (key other than 'write'), the read-only link gives the view page that key and no write token, and the editable link gives the editor that id, key and token. *)
Theorem share_links_open (origin docId key tok : jsstr) :
  ~ In 35 origin -> url_safe docId -> url_safe key -> url_safe tok ->
  docId <> [] -> key <> [] -> tok <> [] -> key <> js "write" ->
  (exists url tokenString,
     getReadOnlyUrl origin (Some docId) (Some key) = Some url /\
     view_keys (location_fragment url) = Some (key, tokenString) /\
     opt_truthy tokenString = false) /\
  (exists url,
     getEditableUrl origin (Some docId) (Some key) (Some tok) = Some url /\
     loadFromUrl (location_fragment url) = LoadDocument docId key (Some tok)).
Proof.
  intros Ho Hd Hk Ht Hdn Hkn Htn Hw.
  assert (Hd' : ~ In 35 docId) by exact (url_safe_not_in docId 35 Hd ltac:(lia)).
  destruct docId as [|d ds]; [congruence|]. destruct key as [|k ks]; [congruence|].
  destruct tok as [|t ts]; [congruence|].
  split.
  - destruct (parse_key_token_key (k :: ks) Hk) as (tokenString & Hp & Hf).
    exists (origin ++ js "/view/" ++ (d :: ds) ++ js "#" ++ (k :: ks)), tokenString.
    split; [reflexivity|]. split; [|exact Hf].
    unfold location_fragment.
    replace (origin ++ js "/view/" ++ (d :: ds) ++ js "#" ++ (k :: ks))
      with ((origin ++ js "/view/" ++ (d :: ds)) ++ 35 :: (k :: ks))
      by (rewrite <- !app_assoc; reflexivity).
    rewrite break_at_app.
    + cbn [snd view_keys]. rewrite Hp. reflexivity.
    + intros Hin. apply in_app_or in Hin as [Hin|Hin]; [exact (Ho Hin)|].
      apply in_app_or in Hin as [Hin|Hin]; [vm_compute in Hin; lia|exact (Hd' Hin)].
  - exists (origin ++ js "/#" ++ (d :: ds) ++ js "#" ++ (k :: ks) ++ js "&write=" ++ (t :: ts)).
    split; [reflexivity|]. unfold location_fragment.
    replace (origin ++ js "/#" ++ (d :: ds) ++ js "#" ++ (k :: ks) ++ js "&write=" ++ (t :: ts))
      with ((origin ++ js "/") ++ 35 :: ((d :: ds) ++ js "#" ++ (k :: ks) ++ js "&write=" ++ (t :: ts)))
      by (rewrite <- !app_assoc; reflexivity).
    rewrite break_at_app.
    + cbn [snd]. apply loadFromUrl_capability; auto.
    + intros Hin. apply in_app_or in Hin as [Hin|Hin]; [exact (Ho Hin)|vm_compute in Hin; lia].
Qed.


Lemma In_filter_incl {A} (P : A -> Prop) `{forall x, Decision (P x)} (l : list A) y :
  In y (filter P l) -> P y /\ In y l.
Proof. rewrite <- !list_elem_of_In, list_elem_of_filter. tauto. Qed.

Lemma In_take_incl {A} (n : nat) (l : list A) y : In y (take n l) -> In y l.
Proof.
  revert n. induction l as [|x r IH]; intros [|n]; cbn; try tauto.
  intros [->|Hy]; [left; reflexivity|right; exact (IH n Hy)].
Qed.

Lemma NoDup_map_filter {A B} (f : A -> B) (P : A -> Prop) `{forall x, Decision (P x)} (l : list A) :
  NoDup (map f l) -> NoDup (map f (filter P l)).
Proof.
  induction l as [|x r IH]; intros Hn; [constructor|]. cbn [map] in Hn.
  apply NoDup_cons in Hn as [Hx Hr]. rewrite list_elem_of_In in Hx. rewrite filter_cons. case_decide; [|exact (IH Hr)].
  cbn [map]. apply NoDup_cons. rewrite list_elem_of_In. split; [|exact (IH Hr)].
  intros Hin. apply Hx. apply in_map_iff in Hin as (y & Hfy & Hy).
  apply in_map_iff. exists y. split; [exact Hfy|]. exact (proj2 (In_filter_incl P r y Hy)).
Qed.

Lemma NoDup_map_take {A B} (f : A -> B) (n : nat) (l : list A) :
  NoDup (map f l) -> NoDup (map f (take n l)).
Proof.
  revert n. induction l as [|x r IH]; intros n Hn; [rewrite take_nil; constructor|].
  destruct n as [|n]; [constructor|]. cbn [take map]. cbn [map] in Hn.
  apply NoDup_cons in Hn as [Hx Hr]. rewrite list_elem_of_In in Hx. apply NoDup_cons. rewrite list_elem_of_In. split; [|exact (IH n Hr)].
  intros Hin. apply Hx. apply in_map_iff in Hin as (y & Hfy & Hy).
  apply in_map_iff. exists y. split; [exact Hfy|]. exact (In_take_incl n r y Hy).
Qed.

Lemma find_history_filter (l : list DocumentHistory.DocumentMetadata) i j : j <> i ->
  List.find (fun d => bool_decide (DocumentHistory.id d = j)) (filter (fun d => DocumentHistory.id d <> i) l) =
  List.find (fun d => bool_decide (DocumentHistory.id d = j)) l.
Proof.
  intros Hji. induction l as [|d r IH]; [reflexivity|].
  rewrite filter_cons. destruct (decide (DocumentHistory.id d <> i)) as [Hd|Hd]; cbn [List.find].
  - rewrite IH. reflexivity.
  - rewrite IH. case_bool_decide as Hj; [|reflexivity]. exfalso. apply Hd. congruence.
Qed.

Lemma find_history_filter_same (l : list DocumentHistory.DocumentMetadata) i :
  List.find (fun d => bool_decide (DocumentHistory.id d = i)) (filter (fun d => DocumentHistory.id d <> i) l) = None.
Proof.
  induction l as [|d r IH]; [reflexivity|].
  rewrite filter_cons. destruct (decide (DocumentHistory.id d <> i)) as [Hd|Hd]; [|exact IH].
  cbn [List.find]. case_bool_decide; [contradiction|exact IH].
Qed.

Lemma find_take {A} (p : A -> bool) n (l : list A) :
  List.find p (take n l) = None \/ List.find p (take n l) = List.find p l.
Proof.
  revert n. induction l as [|x r IH]; intros [|n]; cbn; auto.
  destruct (p x); auto.
Qed.

(** X15: After saveToHistory, the saved document is the one found under its id, the history holds at most 50 entries, and ids stay unique if they were. *)
Theorem saveToHistory_spec (data : DocumentHistory.Storage) (doc : DocumentHistory.DocumentMetadata) :
  let data' := DocumentHistory.saveToHistory data doc in
  DocumentHistory.getDocumentFromHistory data' (DocumentHistory.id doc) = Some doc /\
  (length (DocumentHistory.getDocumentHistory data') <= 50)%nat /\
  (NoDup (map DocumentHistory.id (DocumentHistory.getDocumentHistory data)) ->
   NoDup (map DocumentHistory.id (DocumentHistory.getDocumentHistory data'))).
Proof.
  cbn zeta. unfold DocumentHistory.saveToHistory, DocumentHistory.getDocumentFromHistory. cbn [DocumentHistory.getDocumentHistory].
  split; [|split].
  - cbn [take List.find]. rewrite bool_decide_eq_true_2 by reflexivity. reflexivity.
  - rewrite length_take. lia.
  - intros Hn. apply NoDup_map_take. cbn [map]. apply NoDup_cons. split.
    + rewrite list_elem_of_In. intros Hin. apply in_map_iff in Hin as (y & Hy & Hin).
      apply In_filter_incl in Hin as [Hne _]. exact (Hne Hy).
    + apply NoDup_map_filter. exact Hn.
Qed.

(** X16: saveToHistory never changes the entry found under another id except by dropping it past the 50-entry limit, and changes nothing there when the history held fewer than 50 entries. *)
Theorem saveToHistory_keeps_others (data : DocumentHistory.Storage) (doc : DocumentHistory.DocumentMetadata) (i : jsstr) :
  i <> DocumentHistory.id doc ->
  (DocumentHistory.getDocumentFromHistory (DocumentHistory.saveToHistory data doc) i = None \/
   DocumentHistory.getDocumentFromHistory (DocumentHistory.saveToHistory data doc) i = DocumentHistory.getDocumentFromHistory data i) /\
  ((length (DocumentHistory.getDocumentHistory data) < 50)%nat ->
   DocumentHistory.getDocumentFromHistory (DocumentHistory.saveToHistory data doc) i = DocumentHistory.getDocumentFromHistory data i).
Proof.
  intros Hi. unfold DocumentHistory.saveToHistory, DocumentHistory.getDocumentFromHistory. cbn [DocumentHistory.getDocumentHistory].
  set (h := DocumentHistory.getDocumentHistory data).
  assert (Hfull : List.find (fun d => bool_decide (DocumentHistory.id d = i))
                    (doc :: filter (fun d => DocumentHistory.id d <> DocumentHistory.id doc) h) =
                  List.find (fun d => bool_decide (DocumentHistory.id d = i)) h).
  { cbn [List.find]. rewrite bool_decide_eq_false_2 by congruence.
    apply find_history_filter. exact Hi. }
  split.
  - rewrite <- Hfull. apply find_take.
  - intros Hl. rewrite take_ge; [exact Hfull|].
    cbn [length]. pose proof (length_filter (fun d => DocumentHistory.id d <> DocumentHistory.id doc) h). lia.
Qed.

(** X17: After removeFromHistory of an id, nothing is found under that id and every other id finds what it found before. *)
Theorem removeFromHistory_spec (data : DocumentHistory.Storage) (i : jsstr) :
  DocumentHistory.getDocumentFromHistory (DocumentHistory.removeFromHistory data i) i = None /\
  (forall j, j <> i ->
   DocumentHistory.getDocumentFromHistory (DocumentHistory.removeFromHistory data i) j = DocumentHistory.getDocumentFromHistory data j).
Proof.
  unfold DocumentHistory.removeFromHistory, DocumentHistory.getDocumentFromHistory. cbn [DocumentHistory.getDocumentHistory]. split.
  - apply find_history_filter_same.
  - intros j Hj. apply find_history_filter. exact Hj.
Qed.

Lemma split_on_pieces c s p : In p (split_on c s) -> ~ In c p.
Proof.
  revert p. induction s as [|x r IH]; intros p Hp; cbn [split_on] in Hp.
  - destruct Hp as [<-|[]]. cbn. tauto.
  - destruct (Z.eqb_spec x c) as [Hx|Hx].
    + destruct Hp as [<-|Hp]; [cbn; tauto|exact (IH p Hp)].
    + destruct (split_on c r) as [|q qs] eqn:Hs.
      * destruct Hp as [<-|[]]. cbn. intros [H|[]]. congruence.
      * destruct Hp as [<-|Hp].
        -- intros [H|H]; [congruence|]. exact (IH q (or_introl eq_refl) H).
        -- exact (IH p (or_intror Hp)).
Qed.

Lemma drop_ws_incl s x : In x (drop_ws s) -> In x s.
Proof. induction s as [|y r IH]; cbn; [tauto|]. destruct (is_js_ws y); cbn; tauto. Qed.

Lemma trim_incl s x : In x (trim s) -> In x s.
Proof.
  unfold trim. intros H. apply in_rev in H. apply drop_ws_incl in H.
  apply in_rev in H. exact (drop_ws_incl _ _ H).
Qed.

Lemma drop_hashes_incl s x : In x (DocumentHistory.drop_hashes s) -> In x s.
Proof. induction s as [|y r IH]; cbn; [tauto|]. destruct (y =? 35); cbn; tauto. Qed.

Lemma find_some_in {A} (p : A -> bool) l x : List.find p l = Some x -> In x l /\ p x = true.
Proof. apply find_some. Qed.

Lemma untitled_single_line : js "Untitled" <> [] /\ ~ In 10 (js "Untitled").
Proof. split; [discriminate|]. intros H. vm_compute in H. intuition discriminate. Qed.

(** X18: extractTitle always returns a non-empty title that contains no line feed. *)
Theorem extractTitle_single_line (content : jsstr) :
  DocumentHistory.extractTitle content <> [] /\ ~ In 10 (DocumentHistory.extractTitle content).
Proof.
  unfold DocumentHistory.extractTitle.
  destruct (negb (str_truthy content)); [exact untitled_single_line|].
  destruct (List.find (fun line => DocumentHistory.starts_with_hash (trim line)) (split_on 10 content))
    as [line|] eqn:Hh.
  - apply find_some_in in Hh as [Hin _]. pose proof (split_on_pieces _ _ _ Hin) as Hno.
    destruct (str_truthy (trim (drop_ws (DocumentHistory.drop_hashes (trim line))))) eqn:Ht.
    + split.
      * intros E. rewrite E in Ht. discriminate.
      * intros H. apply Hno. apply trim_incl, drop_ws_incl, drop_hashes_incl, trim_incl in H. exact H.
    + exact untitled_single_line.
  - destruct (List.find (fun line => str_truthy (trim line)) (split_on 10 content))
      as [line|] eqn:Hf; [|exact untitled_single_line].
    apply find_some_in in Hf as [Hin Ht]. pose proof (split_on_pieces _ _ _ Hin) as Hno.
    split.
    + destruct (trim line) as [|a r]; [discriminate|]. cbn. discriminate.
    + intros H. apply in_app_or in H as [H|H].
      * apply In_take_incl, trim_incl in H. exact (Hno H).
      * destruct (50 <? length (trim line))%nat; cbn in H; [|exact H].
        destruct H as [H|[H|[H|[]]]]; discriminate.
Qed.

Lemma generateId_nonempty bytes : bytes <> [] -> str_truthy (generateId bytes) = true.
Proof.
  destruct bytes as [|b bs]; [congruence|]. intros _. unfold generateId, padStart. cbn [map concat].
  unfold Number_toString_radix. set (s := (if _ : bool then _ else _)).
  destruct (repeat 48 (2 - length s) ++ s) eqn:E; [|reflexivity].
  exfalso. apply (f_equal (@length Z)) in E. rewrite length_app, repeat_length in E. cbn in E. lia.
Qed.

(** X19: A document created by POST with a 201 answer under the id generateId gives is then read by GET with that id and exactly the content sent, unless the read is rate-limited (429). *)
Theorem POST_then_GET (srv srv' : Server) (req : Request) (bytes : list Z) (now : Z) (r : Response)
    (getReq : Request) (later : Z) :
  length bytes = 16%nat ->
  POST srv req (generateId bytes) now = (r, srv') -> status r = 201 ->
  exists body v c,
    req_body req = Some body /\ destructure body (js "encryptedContent") = inr v /\
    valid_content v = Some c /\
    match GET srv' (generateId bytes) getReq later with
    | (r2, content, _) =>
        (status r2 = 429 /\ content = None) \/
        (status r2 = 200 /\ resp_id r2 = Some (generateId bytes) /\ content = Some c)
    end.
Proof.
  intros Hlen Hpost Hst.
  assert (Hne : str_truthy (generateId bytes) = true).
  { apply generateId_nonempty. intros ->. discriminate. }
  unfold POST in Hpost.
  destruct (checkRateLimit _ _ _ _ _) as [res rl] eqn:Hrl.
  destruct (success res); cbn [negb] in Hpost; [|injection Hpost as <- _; discriminate].
  destruct (req_body req) as [body|]; [|injection Hpost as <- _; discriminate].
  destruct (destructure body _) as [u|v] eqn:Hd; [injection Hpost as <- _; discriminate|].
  destruct (valid_content v) as [c|] eqn:Hv; [|injection Hpost as <- _; discriminate].
  destruct (_ <? _); [injection Hpost as <- _; discriminate|].
  destruct (db srv !! generateId bytes); [injection Hpost as <- _; discriminate|].
  injection Hpost as <- <-.
  exists body, v, c. do 3 (split; [reflexivity || assumption|]).
  unfold GET. rewrite Hne. cbn [negb db requestLog].
  destruct (checkRateLimit rl _ _ _ _) as [res2 rl2].
  destruct (success res2); cbn [negb]; [|left; split; reflexivity].
  rewrite lookup_insert_eq. right. cbn. auto.
Qed.

(** Witnesses of the properties above, at concrete inputs. *)

Lemma cleanup_invisible_witness :
  times_from 0 (map event_time
    [Call (js "ip") (js "create_document") CREATE_DOCUMENT 0; Cleanup 4000000;
     Call (js "ip") (js "create_document") CREATE_DOCUMENT 4000000]) = true /\
  cleanup (snd (checkRateLimit ∅ (js "ip") (js "create_document") CREATE_DOCUMENT 0)) 4000000
    = ∅ /\
  run_limiter ∅ [Call (js "ip") (js "create_document") CREATE_DOCUMENT 0; Cleanup 4000000;
                 Call (js "ip") (js "create_document") CREATE_DOCUMENT 4000000] =
  run_limiter ∅ (List.filter is_call
                 [Call (js "ip") (js "create_document") CREATE_DOCUMENT 0; Cleanup 4000000;
                  Call (js "ip") (js "create_document") CREATE_DOCUMENT 4000000]).
Proof.
  assert (Ht : times_from 0 (map event_time
    [Call (js "ip") (js "create_document") CREATE_DOCUMENT 0; Cleanup 4000000;
     Call (js "ip") (js "create_document") CREATE_DOCUMENT 4000000]) = true) by reflexivity.
  assert (Hc : cleanup (snd (checkRateLimit ∅ (js "ip") (js "create_document")
                               CREATE_DOCUMENT 0)) 4000000 = ∅) by (vm_compute; reflexivity).
  exact (conj Ht (conj Hc (cleanup_invisible ∅ _ 0 Ht))).
Defined.

Lemma checkRateLimit_result_bounds_witness :
  0 < interval CREATE_DOCUMENT /\
  (let r := fst (checkRateLimit ∅ (js "ip") (js "create_document") CREATE_DOCUMENT 0) in
   limit r = maxRequests CREATE_DOCUMENT /\ 0 <= remaining r /\
   (success r = false -> remaining r = 0) /\ 0 < reset r).
Proof.
  assert (Hi : 0 < interval CREATE_DOCUMENT) by (vm_compute; reflexivity).
  exact (conj Hi (checkRateLimit_result_bounds ∅ (js "ip") (js "create_document")
                    CREATE_DOCUMENT 0 Hi)).
Defined.

Lemma checkRateLimit_keys_separate_witness :
  ~ In 58 (js "get_document") /\ ~ In 58 (js "get_document") /\
  (js "1.2.3.4", js "get_document") <> (js "5.6.7.8", js "get_document") /\
  fst (checkRateLimit (snd (checkRateLimit ∅ (js "1.2.3.4") (js "get_document") GET_DOCUMENT 0))
         (js "5.6.7.8") (js "get_document") GET_DOCUMENT 1) =
    fst (checkRateLimit ∅ (js "5.6.7.8") (js "get_document") GET_DOCUMENT 1).
Proof.
  assert (H1 : ~ In 58 (js "get_document")) by (intros H; vm_compute in H; intuition discriminate).
  assert (H2 : (js "1.2.3.4", js "get_document") <> (js "5.6.7.8", js "get_document"))
    by (intros H; vm_compute in H; discriminate).
  exact (conj H1 (conj H1 (conj H2 (checkRateLimit_keys_separate ∅ _ _ _ _
                                      GET_DOCUMENT GET_DOCUMENT 0 1 H1 H1 H2)))).
Defined.

Lemma generateId_format_witness :
  length [0; 17; 34; 51; 68; 85; 102; 119; 136; 153; 170; 187; 204; 221; 238; 255] = 16%nat /\
  Forall is_byte [0; 17; 34; 51; 68; 85; 102; 119; 136; 153; 170; 187; 204; 221; 238; 255] /\
  length (generateId [0; 17; 34; 51; 68; 85; 102; 119; 136; 153; 170; 187; 204; 221; 238; 255])
    = 32%nat /\
  Forall (fun c => is_lower_hex c = true)
    (generateId [0; 17; 34; 51; 68; 85; 102; 119; 136; 153; 170; 187; 204; 221; 238; 255]).
Proof.
  assert (Hl : length [0; 17; 34; 51; 68; 85; 102; 119; 136; 153; 170; 187; 204; 221; 238; 255]
               = 16%nat) by reflexivity.
  assert (Hb : Forall is_byte
                 [0; 17; 34; 51; 68; 85; 102; 119; 136; 153; 170; 187; 204; 221; 238; 255])
    by (repeat constructor; unfold is_byte in *; lia).
  exact (conj Hl (conj Hb (generateId_format _ Hl Hb))).
Defined.

Lemma generateId_injective_witness :
  Forall is_byte [1; 2] /\ Forall is_byte [1; 2] /\
  generateId [1; 2] = generateId [1; 2] /\ [1; 2] = [1; 2].
Proof.
  assert (Hb : Forall is_byte [1; 2]) by (repeat constructor; unfold is_byte in *; lia).
  exact (conj Hb (conj Hb (conj eq_refl (generateId_injective _ _ Hb Hb eq_refl)))).
Defined.

Lemma arrayBufferToBase64_roundtrip_witness :
  Forall is_byte [1; 2; 3; 250] /\
  exists o, arrayBufferToBase64 [1; 2; 3; 250] = Some o /\ url_safe o /\
    length o = ((4 * length [1; 2; 3; 250] + 2) / 3)%nat /\
    base64ToArrayBuffer o = Some [1; 2; 3; 250].
Proof.
  assert (Hb : Forall is_byte [1; 2; 3; 250]) by (repeat constructor; unfold is_byte in *; lia).
  exact (conj Hb (arrayBufferToBase64_roundtrip _ Hb)).
Defined.

Lemma base64ToArrayBuffer_rejects_1mod4_witness :
  url_safe (js "abcde") /\ (length (js "abcde") mod 4 = 1)%nat /\
  base64ToArrayBuffer (js "abcde") = None.
Proof.
  assert (Hs : url_safe (js "abcde")) by (unfold url_safe; repeat constructor).
  assert (Hl : (length (js "abcde") mod 4 = 1)%nat) by reflexivity.
  exact (conj Hs (conj Hl (base64ToArrayBuffer_rejects_1mod4 _ Hs Hl))).
Defined.

Lemma generateWriteToken_spec_witness :
  length (repeat 7 32) = 32%nat /\ Forall is_byte (repeat 7 32) /\
  exists token, generateWriteToken (repeat 7 32) = Some token /\ length token = 43%nat /\
    url_safe token /\ base64ToArrayBuffer token = Some (repeat 7 32).
Proof.
  assert (Hl : length (repeat 7 32) = 32%nat) by reflexivity.
  assert (Hb : Forall is_byte (repeat 7 32)) by (repeat constructor; unfold is_byte in *; lia).
  exact (conj Hl (conj Hb (generateWriteToken_spec _ Hl Hb))).
Defined.

Lemma hashWriteToken_verifyWriteToken_witness :
  length ((fun _ : list Z => repeat 0 32) (TextEncoder_encode (js "token"))) = 32%nat /\
  Forall is_byte ((fun _ : list Z => repeat 0 32) (TextEncoder_encode (js "token"))) /\
  exists h, hashWriteToken (fun _ : list Z => repeat 0 32) (js "token") = Some h /\
    length h = 43%nat /\ url_safe h /\
    forall stored, verifyWriteToken (fun _ : list Z => repeat 0 32) (js "token") stored
                   = Some (bool_decide (h = stored)).
Proof.
  assert (Hl : length ((fun _ : list Z => repeat 0 32) (TextEncoder_encode (js "token")))
               = 32%nat) by reflexivity.
  assert (Hb : Forall is_byte ((fun _ : list Z => repeat 0 32) (TextEncoder_encode (js "token"))))
    by (cbv beta; repeat constructor; unfold is_byte in *; lia).
  exact (conj Hl (conj Hb (hashWriteToken_verifyWriteToken _ _ Hl Hb))).
Defined.

Lemma importKey_exportKey_witness :
  Forall is_byte ((fun k : list Z => k) [1; 2; 3]) /\
  exists keyString, exportKey (fun k : list Z => k) [1; 2; 3] = Some keyString /\
    url_safe keyString /\
    importKey (fun d : list Z => Some d) keyString = Some ((fun k : list Z => k) [1; 2; 3]).
Proof.
  assert (Hb : Forall is_byte ((fun k : list Z => k) [1; 2; 3]))
    by (cbv beta; repeat constructor; unfold is_byte in *; lia).
  exact (conj Hb (importKey_exportKey (fun k : list Z => k) (fun d : list Z => Some d) _ Hb)).
Defined.

Lemma handleShare_link_loads_back_witness :
  length (repeat 0 16) = 16%nat /\ Forall is_byte (repeat 0 16) /\
  length ((fun k : list Z => k) (repeat 1 32)) = 32%nat /\
  Forall is_byte ((fun k : list Z => k) (repeat 1 32)) /\
  length (repeat 7 32) = 32%nat /\ Forall is_byte (repeat 7 32) /\
  exists keyString token,
    exportKey (fun k : list Z => k) (repeat 1 32) = Some keyString /\
    generateWriteToken (repeat 7 32) = Some token /\
    loadFromUrl (share_hash (generateId (repeat 0 16)) keyString token) =
      LoadDocument (generateId (repeat 0 16)) keyString (Some token).
Proof.
  assert (H1 : length (repeat 0 16) = 16%nat) by reflexivity.
  assert (H2 : Forall is_byte (repeat 0 16)) by (repeat constructor; unfold is_byte in *; lia).
  assert (H3 : length ((fun k : list Z => k) (repeat 1 32)) = 32%nat) by reflexivity.
  assert (H4 : Forall is_byte ((fun k : list Z => k) (repeat 1 32)))
    by (cbv beta; repeat constructor; unfold is_byte in *; lia).
  assert (H5 : length (repeat 7 32) = 32%nat) by reflexivity.
  assert (H6 : Forall is_byte (repeat 7 32)) by (repeat constructor; unfold is_byte in *; lia).
  exact (conj H1 (conj H2 (conj H3 (conj H4 (conj H5 (conj H6
           (handleShare_link_loads_back (fun k : list Z => k) (repeat 1 32) _ _
              H1 H2 H3 H4 H5 H6))))))).
Defined.

Lemma saveToHistory_keeps_others_witness :
  js "b" <> DocumentHistory.id (sample_entry (js "a")) /\
  (DocumentHistory.getDocumentFromHistory (DocumentHistory.saveToHistory
     (Some [sample_entry (js "c"); sample_entry (js "b")]) (sample_entry (js "a"))) (js "b")
     = None \/
   DocumentHistory.getDocumentFromHistory (DocumentHistory.saveToHistory
     (Some [sample_entry (js "c"); sample_entry (js "b")]) (sample_entry (js "a"))) (js "b")
     = DocumentHistory.getDocumentFromHistory
         (Some [sample_entry (js "c"); sample_entry (js "b")]) (js "b")) /\
  ((length (DocumentHistory.getDocumentHistory
              (Some [sample_entry (js "c"); sample_entry (js "b")])) < 50)%nat ->
   DocumentHistory.getDocumentFromHistory (DocumentHistory.saveToHistory
     (Some [sample_entry (js "c"); sample_entry (js "b")]) (sample_entry (js "a"))) (js "b")
     = DocumentHistory.getDocumentFromHistory
         (Some [sample_entry (js "c"); sample_entry (js "b")]) (js "b")) /\
  DocumentHistory.getDocumentFromHistory
    (Some [sample_entry (js "c"); sample_entry (js "b")]) (js "b") = Some (sample_entry (js "b")) /\
  [49] <> DocumentHistory.id (sample_entry (js "a")) /\
  (DocumentHistory.getDocumentFromHistory
     (DocumentHistory.saveToHistory full_history (sample_entry (js "a"))) [49] = None \/
   DocumentHistory.getDocumentFromHistory
     (DocumentHistory.saveToHistory full_history (sample_entry (js "a"))) [49] =
   DocumentHistory.getDocumentFromHistory full_history [49]) /\
  DocumentHistory.getDocumentFromHistory full_history [49] = Some (sample_entry [49]) /\
  DocumentHistory.getDocumentFromHistory
    (DocumentHistory.saveToHistory full_history (sample_entry (js "a"))) [49] = None.
Proof.
  assert (Hi : js "b" <> DocumentHistory.id (sample_entry (js "a")))
    by (intros H; vm_compute in H; discriminate).
  assert (Hj : [49] <> DocumentHistory.id (sample_entry (js "a")))
    by (intros H; vm_compute in H; discriminate).
  pose proof (saveToHistory_keeps_others
                (Some [sample_entry (js "c"); sample_entry (js "b")]) _ _ Hi) as [K1 K2].
  pose proof (saveToHistory_keeps_others full_history _ _ Hj) as [K3 _].
  split; [exact Hi|]. split; [exact K1|]. split; [exact K2|].
  split; [vm_compute; reflexivity|]. split; [exact Hj|]. split; [exact K3|].
  split; vm_compute; reflexivity.
Defined.

Lemma share_links_open_witness :
  ~ In 35 (js "https://md.example") /\ url_safe (js "abc") /\ url_safe (js "k1") /\
  url_safe (js "t1") /\ js "abc" <> [] /\ js "k1" <> [] /\ js "t1" <> [] /\
  js "k1" <> js "write" /\
  (exists url tokenString,
     getReadOnlyUrl (js "https://md.example") (Some (js "abc")) (Some (js "k1")) = Some url /\
     view_keys (location_fragment url) = Some (js "k1", tokenString) /\
     opt_truthy tokenString = false) /\
  (exists url,
     getEditableUrl (js "https://md.example") (Some (js "abc")) (Some (js "k1")) (Some (js "t1"))
       = Some url /\
     loadFromUrl (location_fragment url) = LoadDocument (js "abc") (js "k1") (Some (js "t1"))).
Proof.
  assert (H1 : ~ In 35 (js "https://md.example"))
    by (intros H; vm_compute in H; intuition discriminate).
  assert (H2 : url_safe (js "abc")) by (unfold url_safe; repeat constructor).
  assert (H3 : url_safe (js "k1")) by (unfold url_safe; repeat constructor).
  assert (H4 : url_safe (js "t1")) by (unfold url_safe; repeat constructor).
  assert (H5 : js "abc" <> []) by discriminate.
  assert (H6 : js "k1" <> []) by discriminate.
  assert (H7 : js "t1" <> []) by discriminate.
  assert (H8 : js "k1" <> js "write") by (intros H; vm_compute in H; discriminate).
  exact (conj H1 (conj H2 (conj H3 (conj H4 (conj H5 (conj H6 (conj H7 (conj H8
           (share_links_open _ _ _ _ H1 H2 H3 H4 H5 H6 H7 H8))))))))).
Defined.

Lemma POST_then_GET_witness :
  length (repeat 0 16) = 16%nat /\
  POST empty_server (json_request [(js "encryptedContent", JStr (js "abc"))])
       (generateId (repeat 0 16)) 0 =
    (fst (POST empty_server (json_request [(js "encryptedContent", JStr (js "abc"))])
            (generateId (repeat 0 16)) 0),
     snd (POST empty_server (json_request [(js "encryptedContent", JStr (js "abc"))])
            (generateId (repeat 0 16)) 0)) /\
  status (fst (POST empty_server (json_request [(js "encryptedContent", JStr (js "abc"))])
                 (generateId (repeat 0 16)) 0)) = 201 /\
  exists body v c,
    req_body (json_request [(js "encryptedContent", JStr (js "abc"))]) = Some body /\
    destructure body (js "encryptedContent") = inr v /\
    valid_content v = Some c /\
    match GET (snd (POST empty_server (json_request [(js "encryptedContent", JStr (js "abc"))])
                       (generateId (repeat 0 16)) 0))
              (generateId (repeat 0 16)) (json_request []) 1 with
    | (r2, content, _) =>
        (status r2 = 429 /\ content = None) \/
        (status r2 = 200 /\ resp_id r2 = Some (generateId (repeat 0 16)) /\ content = Some c)
    end.
Proof.
  assert (H1 : length (repeat 0 16) = 16%nat) by reflexivity.
  assert (H2 : POST empty_server (json_request [(js "encryptedContent", JStr (js "abc"))])
                 (generateId (repeat 0 16)) 0 =
    (fst (POST empty_server (json_request [(js "encryptedContent", JStr (js "abc"))])
            (generateId (repeat 0 16)) 0),
     snd (POST empty_server (json_request [(js "encryptedContent", JStr (js "abc"))])
            (generateId (repeat 0 16)) 0))) by apply surjective_pairing.
  assert (H3 : status (fst (POST empty_server
                              (json_request [(js "encryptedContent", JStr (js "abc"))])
                              (generateId (repeat 0 16)) 0)) = 201)
    by (vm_compute; reflexivity).
  exact (conj H1 (conj H2 (conj H3 (POST_then_GET _ _ _ _ _ _ (json_request []) 1 H1 H2 H3)))).
Defined.

(** X20: No POST replaces or removes a stored document: every document in
    the table before the request is still there, unchanged, afterwards (a
    generated id that is already taken ends in 500). *)
Theorem POST_keeps_stored_documents (srv : Server) (req : Request) (newId : jsstr) (now : Z) :
  forall k d, db srv !! k = Some d -> db (snd (POST srv req newId now)) !! k = Some d.
Proof.
  intros k d Hk. unfold POST.
  destruct (checkRateLimit (requestLog srv) (getClientIp (req_headers req)) _ _ _) as [res rl].
  destruct (success res); cbn [negb]; [|exact Hk].
  destruct (req_body req) as [body|]; [|exact Hk].
  destruct (destructure body _) as [u|v]; [exact Hk|].
  destruct (valid_content v) as [c|]; [|exact Hk].
  destruct (_ <? _); [exact Hk|].
  destruct (db srv !! newId) eqn:Hn; [exact Hk|]. cbn [db snd].
  rewrite lookup_insert_ne; [exact Hk|]. intros <-. congruence.
Qed.

(** X21: From the view page reached with a fragment [key] or
    [key&write=token] (base64url id, key and token, non-empty key other than
    'write'), openInEditor navigates to an editor URL that loadFromUrl reads
    as the same id, key and token. *)
Theorem view_openInEditor (docId key tok : jsstr) :
  url_safe docId -> url_safe key -> url_safe tok -> key <> [] -> key <> js "write" ->
  exists href,
    match view_keys (if str_truthy tok then key ++ js "&write=" ++ tok else key) with
    | Some (k, t) => openInEditor docId (Some k) t
    | None => None
    end = Some href /\
    loadFromUrl (location_fragment href) =
      LoadDocument docId key (if str_truthy tok then Some tok else None).
Proof.
  intros Hd Hk Ht Hkn Hw.
  assert (Hv : view_keys (if str_truthy tok then key ++ js "&write=" ++ tok else key) =
               Some (key, if str_truthy tok then Some tok else None)).
  { rewrite <- (parse_key_token_roundtrip key tok Hk Ht Hw).
    destruct key as [|c r]; [congruence|]. destruct (str_truthy tok); reflexivity. }
  rewrite Hv. destruct key as [|c r]; [congruence|].
  destruct tok as [|t ts] eqn:Etok; cbn [str_truthy].
  - exists (js "/#" ++ docId ++ js "#" ++ c :: r). split; [reflexivity|].
    unfold location_fragment. change (js "/#" ++ ?X) with ([47] ++ 35 :: X).
    rewrite (break_at_app 35 [47]) by (cbn; lia). cbn [snd].
    change (js "#") with [35]. cbn [app].
    rewrite <- (app_nil_r (c :: r)). rewrite loadFromUrl_split.
    + rewrite app_nil_r. pose proof (parse_key_token_roundtrip (c :: r) [] Hk Ht Hw) as P.
      cbn [str_truthy] in P. rewrite P. reflexivity.
    + exact (url_safe_not_in docId 35 Hd ltac:(lia)).
    + exact (url_safe_not_in (c :: r) 35 Hk ltac:(lia)).
    + left. reflexivity.
  - exists (js "/#" ++ docId ++ js "#" ++ (c :: r) ++ js "&write=" ++ (t :: ts)).
    split; [reflexivity|].
    unfold location_fragment. change (js "/#" ++ ?X) with ([47] ++ 35 :: X).
    rewrite (break_at_app 35 [47]) by (cbn; lia). cbn [snd].
    apply loadFromUrl_capability; [exact Hd|exact Hk|exact Ht|discriminate|exact Hw].
Qed.

Lemma view_openInEditor_witness :
  url_safe (js "abc") /\ url_safe (js "k1") /\ url_safe (js "t1") /\ js "k1" <> [] /\
  js "k1" <> js "write" /\
  exists href,
    match view_keys (if str_truthy (js "t1") then js "k1" ++ js "&write=" ++ js "t1"
                     else js "k1") with
    | Some (k, t) => openInEditor (js "abc") (Some k) t
    | None => None
    end = Some href /\
    loadFromUrl (location_fragment href) =
      LoadDocument (js "abc") (js "k1") (if str_truthy (js "t1") then Some (js "t1") else None).
Proof.
  assert (H1 : url_safe (js "abc")) by (unfold url_safe; repeat constructor).
  assert (H2 : url_safe (js "k1")) by (unfold url_safe; repeat constructor).
  assert (H3 : url_safe (js "t1")) by (unfold url_safe; repeat constructor).
  assert (H4 : js "k1" <> []) by discriminate.
  assert (H5 : js "k1" <> js "write") by (intros H; vm_compute in H; discriminate).
  exact (conj H1 (conj H2 (conj H3 (conj H4 (conj H5 (view_openInEditor _ _ _ H1 H2 H3 H4 H5)))))).
Defined.

Lemma POST_keeps_stored_documents_witness :
  db server_two_docs !! js "d1" = Some stored_doc_with_hash /\
  status (fst (POST server_two_docs (json_request [(js "encryptedContent", JStr (js "abc"))])
                 (js "d1") 0)) = 500 /\
  db (snd (POST server_two_docs (json_request [(js "encryptedContent", JStr (js "abc"))])
             (js "d1") 0)) !! js "d1" = Some stored_doc_with_hash.
Proof.
  assert (Hk : db server_two_docs !! js "d1" = Some stored_doc_with_hash)
    by (vm_compute; reflexivity).
  split; [exact Hk|]. split; [vm_compute; reflexivity|].
  exact (POST_keeps_stored_documents server_two_docs _ (js "d1") 0 _ _ Hk).
Defined.
